(** * Swim Team Highlighter: the matcher and the highlighter of [app.py]

    A shallow embedding of the two utilities and the two core functions of
    [app.py] ([normalize], [contains_whole_team], [find_matches],
    [highlight_lines]) together with the Python built-ins they call
    ([str.lower], [str.strip], [str.startswith], [str.endswith], [in],
    [str.splitlines], [str.join], [min], [max]).

    Conventions.
    - A Python [str] is a [list ascii]; a character is read as the code
      point U+0000..U+00FF it denotes, so the development covers the
      Latin-1 part of Python's strings (case mapping, white space and line
      boundaries are the ones Python uses on that range).
    - A page index and a line index are [nat]: [find_matches] draws them
      from [range] and [enumerate].
    - Coordinates are rationals: a finite float is a rational and [min] and
      [max] only compare.
    - PyMuPDF is outside the program: opening a byte stream and saving a
      document are parameters of the highlighter, and both can fail. *)

From Stdlib Require Import Ascii QArith.
From stdpp Require Import base list sorting strings.

Local Open Scope list_scope.

(** ** Strings *)

Module Str.

Abbreviation str := (list ascii).

Definition lit (x : string) : str := String.list_ascii_of_string x.

Definition SP : ascii := " "%char.
Definition TAB : ascii := "009"%char.

Definition code (c : ascii) : N := N_of_ascii c.

(** [str.lower] on one character: A-Z, and the Latin-1 capitals U+00C0 to
    U+00DE except the multiplication sign U+00D7, move up by 32. *)
Definition chr_lower (c : ascii) : ascii :=
  let n := code c in
  if ((65 <=? n) && (n <=? 90) ||
      (192 <=? n) && (n <=? 222) && negb (n =? 215))%N
  then ascii_of_N (n + 32) else c.

(** [str.isspace] on one character: TAB, LF, VT, FF, CR, FS, GS, RS, US,
    space, NEL (U+0085) and the no-break space (U+00A0). *)
Definition isspace (c : ascii) : bool :=
  let n := code c in
  ((9 <=? n) && (n <=? 13) || (28 <=? n) && (n <=? 32) ||
   (n =? 133) || (n =? 160))%N.

(** The characters on which [str.splitlines] breaks a line: LF, VT, FF, CR,
    FS, GS, RS and NEL. *)
Definition islinebreak (c : ascii) : bool :=
  let n := code c in
  ((10 <=? n) && (n <=? 13) || (28 <=? n) && (n <=? 30) || (n =? 133))%N.

Definition lower (x : str) : str := chr_lower <$> x.

Fixpoint lstrip (x : str) : str :=
  match x with
  | c :: r => if isspace c then lstrip r else x
  | [] => []
  end.

Definition rstrip (x : str) : str := reverse (lstrip (reverse x)).

Definition strip (x : str) : str := rstrip (lstrip x).

Fixpoint startswith (x p : str) : bool :=
  match p, x with
  | [], _ => true
  | _ :: _, [] => false
  | a :: p', b :: x' => bool_decide (a = b) && startswith x' p'
  end.

Definition endswith (x p : str) : bool :=
  startswith (reverse x) (reverse p).

(** [p in x] *)
Fixpoint contains (x p : str) : bool :=
  startswith x p ||
  match x with
  | [] => false
  | _ :: r => contains r p
  end.

(** [sep.join(parts)] *)
Fixpoint join (sep : str) (parts : list str) : str :=
  match parts with
  | [] => []
  | [a] => a
  | a :: r => a ++ sep ++ join sep r
  end.

(** [x.splitlines()]: [cur] holds the characters of the line being read,
    last one first. A CR directly followed by LF is one boundary; a last
    line without a terminator is kept, an empty one is not. *)
Fixpoint splitlines_from (cur x : str) : list str :=
  match x with
  | [] => match cur with [] => [] | _ => [reverse cur] end
  | c :: r =>
      if islinebreak c then
        reverse cur ::
          match r with
          | d :: r' =>
              if bool_decide (c = "013"%char) && bool_decide (d = "010"%char)
              then splitlines_from [] r'
              else splitlines_from [] r
          | [] => splitlines_from [] r
          end
      else splitlines_from (c :: cur) r
  end.

Definition splitlines (x : str) : list str := splitlines_from [] x.

Definition any (l : list bool) : bool := existsb id l.

End Str.

Import Str.

(** ** Utilities of [app.py] *)

Definition normalize (x : str) : str := strip (lower x).

Definition contains_whole_team (line team : str) : bool :=
  let line_low := lower line in
  any [ bool_decide (line_low = team);
        startswith line_low (team ++ [SP]);
        endswith line_low ([SP] ++ team);
        contains line_low ([SP] ++ team ++ [SP]);
        startswith line_low (team ++ [TAB]);
        endswith line_low ([TAB] ++ team);
        contains line_low ([TAB] ++ team ++ [TAB]) ].

(** ** The matcher *)

Record Match := mkMatch { m_page : nat; m_line_num : nat; m_text : str }.

Definition Team_Code : str := lit "Team Code".
Definition Swimmer_Name : str := lit "Swimmer Name".

(** The test of one line in the loop body of [find_matches]. *)
Definition line_matches (mode q line : str) : bool :=
  let line_low := normalize line in
  if bool_decide (mode = Team_Code)
  then contains_whole_team line q
  else contains line_low q.

(** [for i, line in enumerate(lines)], from line index [i] on. *)
Fixpoint scan_lines (mode q : str) (pageno i : nat) (lines : list str)
  : list Match :=
  match lines with
  | [] => []
  | line :: rest =>
      (if line_matches mode q line then [mkMatch pageno i line] else [])
        ++ scan_lines mode q pageno (S i) rest
  end.

(** ** Documents

    What PyMuPDF exposes of a page: its plain text ([get_text("text")]), its
    layout ([get_text("dict")["blocks"]]) and its annotations. *)

Record Rect := mkRect { x0 : Q; y0 : Q; x1 : Q; y1 : Q }.

Record Span := mkSpan { span_text : str; span_bbox : Rect }.

Record Line := mkLine { line_spans : list Span }.

Record Block := mkBlock { block_type : Z; block_lines : list Line }.

Record Page := mkPage {
  page_text : str;
  page_blocks : list Block;
  page_annots : list Rect
}.

Abbreviation Document := (list Page).

(** [for pageno in range(len(doc))], with [page = doc[pageno]] and
    [lines = page.get_text("text").splitlines()]. *)
Definition scan_page (mode q : str) (doc : Document) (pageno : nat)
  : list Match :=
  match doc !! pageno with
  | Some page => scan_lines mode q pageno 0 (splitlines (page_text page))
  | None => []
  end.

Definition find_matches (doc : Document) (query mode : str) : list Match :=
  let q := normalize query in
  flat_map (scan_page mode q doc) (seq 0 (length doc)).

(** ** Failure *)

Inductive error := DocumentError | IndexError | ValueError.

Inductive result (A : Type) :=
  | Ok (a : A)
  | Err (e : error).
Arguments Ok {A} a.
Arguments Err {A} e.

#[global] Instance result_ret : MRet result := @Ok.
#[global] Instance result_bind : MBind result :=
  fun A B f m => match m with Ok a => f a | Err e => Err e end.

(** A [for] loop whose body may raise, over a state [S]. *)
Fixpoint for_each {A S : Type} (body : A -> S -> result S) (l : list A)
  (st : S) : result S :=
  match l with
  | [] => Ok st
  | a :: r => st' ← body a st; for_each body r st'
  end.

(** ** The highlighter *)

(** [min] and [max] of a sequence of numbers: the first smallest (largest)
    element, [ValueError] on an empty sequence. *)
Definition py_min (l : list Q) : result Q :=
  match l with
  | [] => Err ValueError
  | a :: r =>
      Ok (fold_left (fun best y => if Qle_bool best y then best else y) r a)
  end.

Definition py_max (l : list Q) : result Q :=
  match l with
  | [] => Err ValueError
  | a :: r =>
      Ok (fold_left (fun best y => if Qle_bool y best then best else y) r a)
  end.

(** [page.add_highlight_annot(rect)] on page [pageno] of the open document. *)
Definition add_annots (rs : list Rect) (page : Page) : Page :=
  mkPage (page_text page) (page_blocks page) (page_annots page ++ rs).

Definition add_highlight_annot (pageno : nat) (rect : Rect) (doc : Document)
  : Document :=
  alter (add_annots [rect]) pageno doc.

(** The text of a layout line as the loop rebuilds it. *)
Definition line_text (line : Line) : str :=
  strip (join [SP] (span_text <$> line_spans line)).

Definition line_rect (line : Line) : result Rect :=
  a ← py_min ((fun sp => x0 (span_bbox sp)) <$> line_spans line);
  b ← py_min ((fun sp => y0 (span_bbox sp)) <$> line_spans line);
  c ← py_max ((fun sp => x1 (span_bbox sp)) <$> line_spans line);
  d ← py_max ((fun sp => y1 (span_bbox sp)) <$> line_spans line);
  Ok (mkRect a b c d).

Definition highlight_line (pageno : nat) (target_text : str) (line : Line)
  (doc : Document) : result Document :=
  let span_text := line_text line in
  if bool_decide (normalize span_text = normalize target_text) then
    rect ← line_rect line;
    Ok (add_highlight_annot pageno rect doc)
  else Ok doc.

Definition highlight_block (pageno : nat) (target_text : str) (block : Block)
  (doc : Document) : result Document :=
  if bool_decide (block_type block ≠ 0%Z) then Ok doc
  else for_each (highlight_line pageno target_text) (block_lines block) doc.

Definition highlight_match (m : Match) (doc : Document) : result Document :=
  match doc !! m_page m with
  | None => Err IndexError
  | Some page =>
      let lines := page_blocks page in
      let target_text := strip (m_text m) in
      for_each (highlight_block (m_page m) target_text) lines doc
  end.

(** The outcome of [doc.save]: the bytes written, or the [ValueError] that
    PyMuPDF raises when it cannot save the document (one with no page, an
    encrypted one). *)
Definition saved (o : option (list Byte.byte)) : result (list Byte.byte) :=
  match o with
  | Some out => Ok out
  | None => Err ValueError
  end.

Section Highlighter.

(** [fitz.open(stream=..., filetype="pdf")], which raises on bytes that
    are not a document, and [doc.save] into a buffer, which raises on a
    document that cannot be saved. *)
Variable open_pdf : list Byte.byte -> option Document.
Variable save : Document -> option (list Byte.byte).

Definition highlight_lines (input_bytes : list Byte.byte) (matches : list Match)
  : result (list Byte.byte) :=
  match open_pdf input_bytes with
  | None => Err DocumentError
  | Some doc =>
      doc' ← for_each highlight_match matches doc;
      saved (save doc')
  end.

End Highlighter.

(** ** Vocabulary of the properties *)

(** A page that carries plain text only. *)
Definition text_page (t : str) : Page := mkPage t [] [].

(** [p] occurs in [x] as a contiguous run. *)
Definition infix_of (p x : str) : Prop := ∃ a b, x = a ++ p ++ b.

(** [q] stands free in [l]: the whole of [l], at its start before a space or
    a tab, at its end after a space or a tab, or inside [l] between two
    spaces or between two tabs. *)
Definition free_standing (q l : str) : Prop :=
  l = q ∨
  (q ++ [SP]) `prefix_of` l ∨ (q ++ [TAB]) `prefix_of` l ∨
  ([SP] ++ q) `suffix_of` l ∨ ([TAB] ++ q) `suffix_of` l ∨
  infix_of ([SP] ++ q ++ [SP]) l ∨ infix_of ([TAB] ++ q ++ [TAB]) l.

(** Line [i] of the plain text of page [p]. *)
Definition doc_line (doc : Document) (p i : nat) : option str :=
  page ← doc !! p; splitlines (page_text page) !! i.

(** [x] does not begin with white space. *)
Definition no_lead (x : str) : Prop :=
  match x with
  | c :: _ => isspace c = false
  | [] => True
  end.

(** Page first, then line. *)
Definition match_lt (a b : Match) : Prop :=
  m_page a < m_page b ∨ (m_page a = m_page b ∧ m_line_num a < m_line_num b).

Definition is_min (a : Q) (l : list Q) : Prop :=
  a ∈ l ∧ ∀ b, b ∈ l → (a <= b)%Q.

Definition is_max (a : Q) (l : list Q) : Prop :=
  a ∈ l ∧ ∀ b, b ∈ l → (b <= a)%Q.

(** [r] is the union of the bounding boxes of the spans of [line]. *)
Definition is_union (line : Line) (r : Rect) : Prop :=
  is_min (x0 r) ((fun sp => x0 (span_bbox sp)) <$> line_spans line) ∧
  is_min (y0 r) ((fun sp => y0 (span_bbox sp)) <$> line_spans line) ∧
  is_max (x1 r) ((fun sp => x1 (span_bbox sp)) <$> line_spans line) ∧
  is_max (y1 r) ((fun sp => y1 (span_bbox sp)) <$> line_spans line).

(** The layout lines the loops visit on a page: the lines of its text
    blocks (type 0), in order. *)
Definition text_lines (page : Page) : list Line :=
  flat_map block_lines
    (filter (fun b => block_type b = 0%Z) (page_blocks page)).

(** The visited lines whose rebuilt text equals [target] once both are
    normalized. *)
Definition hits_in (target : str) (lines : list Line) : list Line :=
  filter (fun l => normalize (line_text l) = normalize target) lines.

Definition hits (target : str) (page : Page) : list Line :=
  hits_in target (text_lines page).

(** [rects] are the rectangles computed for [lines], one each, in order. *)
Definition drawn_for (lines : list Line) (rects : list Rect) : Prop :=
  Forall2 (fun l r => line_rect l = Ok r) lines rects.

(** The lines that the matches [ms] hit on page [p], match after match. *)
Definition page_hits (ms : list Match) (p : nat) (page : Page) : list Line :=
  flat_map (fun m => hits (m_text m) page)
           (filter (fun m => m_page m = p) ms).

(** [doc'] is [doc] after the matches [ms] are drawn: the same pages, each
    with one more rectangle per line that the matches naming it hit, match
    after match and in layout order. *)
Definition annotated (ms : list Match) (doc doc' : Document) : Prop :=
  length doc' = length doc ∧
  ∀ p page, doc !! p = Some page →
    ∃ rects, doc' !! p = Some (add_annots rects page) ∧
             drawn_for (page_hits ms p page) rects.

(** ** A sample psych sheet

    One page. The plain text has four lines; the layout has one text block
    and one image block. The name line of team MAC-MA occurs twice, each
    time as two spans; the line of team EMAC-MA is cut in two layout lines,
    so the plain-text line has no layout line of the same text. *)

Definition LF : ascii := "010"%char.

Definition unlines (ls : list str) : str :=
  flat_map (fun l => l ++ [LF]) ls.

Definition span (t : string) (a b c d : Q) : Span :=
  mkSpan (lit t) (mkRect a b c d).

Definition sample_title : Line :=
  mkLine [span "Team Roster" 72 40 190 56].

Definition sample_first : Line :=
  mkLine [span "MAC-MA" 72 100 118 112; span " John Smith" 124 (197#2) 210 113].

Definition sample_cut_a : Line := mkLine [span "EMAC-MA Jane" 72 120 160 132].

Definition sample_cut_b : Line := mkLine [span "Roe" 72 134 96 146].

Definition sample_second : Line :=
  mkLine [span "MAC-MA" 72 160 118 172; span " John Smith" 124 159 210 (347#2)].

Definition sample_page : Page :=
  mkPage
    (unlines [lit "Team Roster"; lit "MAC-MA  John Smith";
              lit "EMAC-MA Jane Roe"; lit "MAC-MA  John Smith"])
    [mkBlock 0 [sample_title; sample_first; sample_cut_a; sample_cut_b;
                sample_second];
     mkBlock 1 []]
    [].

Definition sample_doc : Document := [sample_page].

Definition sample_bytes : list Byte.byte :=
  [Byte.x25; Byte.x50; Byte.x44; Byte.x46].

(** A stand-in for PyMuPDF on the sample: every non-empty byte string opens
    as the sample sheet; saving refuses a document without pages and
    otherwise writes the header and then, page by page, one star per
    annotation and a line feed. *)
Definition sample_open (b : list Byte.byte) : option Document :=
  match b with
  | [] => None
  | _ :: _ => Some sample_doc
  end.

Definition sample_save (d : Document) : option (list Byte.byte) :=
  match d with
  | [] => None
  | _ :: _ =>
      Some (sample_bytes ++
            flat_map (fun page => ((fun _ => Byte.x2a) <$> page_annots page)
                                    ++ [Byte.x0a]) d)
  end.

Definition sample_name_line : str := lit "MAC-MA  John Smith".

Definition sample_cut_line : str := lit "EMAC-MA Jane Roe".

(** The matches of team MAC-MA on the sample, and what saving gives once
    they are drawn: four annotations on the one page. *)
Definition sample_matches : list Match :=
  find_matches sample_doc (lit "mac-ma") Team_Code.

Definition sample_out : list Byte.byte :=
  sample_bytes ++ [Byte.x2a; Byte.x2a; Byte.x2a; Byte.x2a; Byte.x0a].

(** ** A container that keeps the plain text

    A second stand-in for PyMuPDF, with a real round trip: a document is
    written as its pages' texts, each character after a byte 01 and each
    page closed by a byte 00; opening reads the pages back, without layout
    and without annotations. The empty byte string opens as the document
    without pages, and, as with PyMuPDF, a document without pages cannot be
    saved. *)

Module TextOnly.

Definition enc_text (t : str) : list Byte.byte :=
  flat_map (fun c => [Byte.x01; byte_of_ascii c]) t.

Definition enc (d : Document) : list Byte.byte :=
  flat_map (fun page => enc_text (page_text page) ++ [Byte.x00]) d.

Definition save (d : Document) : option (list Byte.byte) :=
  match d with
  | [] => None
  | _ :: _ => Some (enc d)
  end.

Fixpoint open_from (cur : str) (b : list Byte.byte) : option Document :=
  match b with
  | [] => match cur with [] => Some [] | _ :: _ => None end
  | Byte.x00 :: r => cons (text_page (reverse cur)) <$> open_from [] r
  | Byte.x01 :: c :: r => open_from (ascii_of_byte c :: cur) r
  | _ => None
  end.

Definition open (b : list Byte.byte) : option Document := open_from [] b.

End TextOnly.

(** ** The script

    The main part of [app.py], with Streamlit's widgets read as values: the
    uploaded file is [None] or the bytes it reads, the radio gives the mode
    and the text input the query. What the script shows is a [Screen]. The
    table and the count are shown before [highlight_lines] runs, so a
    failure of the highlighter leaves them on the screen without a download;
    a failure of the first [fitz.open] ends the script before anything is
    shown. *)

Record Row := mkRow { row_page : nat; row_line : nat; row_text : str }.

Inductive Screen :=
  | Prompt
  | NoMatches
  | Found (count : nat) (table : list Row)
          (download : result (list Byte.byte)).

(** One row of the results table: page and line are shown one-based. *)
Definition table_row (m : Match) : Row :=
  mkRow (m_page m + 1) (m_line_num m + 1) (m_text m).

Section Script.

Variable open_pdf : list Byte.byte -> option Document.
Variable save : Document -> option (list Byte.byte).

Definition script (uploaded_file : option (list Byte.byte))
  (query_input search_type : str) : result Screen :=
  match uploaded_file with
  | Some raw =>
      if bool_decide (strip query_input ≠ []) then
        match open_pdf raw with
        | None => Err DocumentError
        | Some doc =>
            let matches := find_matches doc query_input search_type in
            match matches with
            | [] => Ok NoMatches
            | _ :: _ =>
                Ok (Found (length matches) (table_row <$> matches)
                          (highlight_lines open_pdf save raw matches))
            end
        end
      else Ok Prompt
  | None => Ok Prompt
  end.

End Script.

(** * Properties *)

(** ** Python's string predicates *)

Lemma startswith_prefix (x p : str) :
  startswith x p = true ↔ p `prefix_of` x.
Proof.
  revert x; induction p as [|a p IH]; intros [|b x]; simpl.
  - split; [intros _; apply prefix_nil | done].
  - split; [intros _; apply prefix_nil | done].
  - split; [done | intros H; by apply prefix_nil_not in H].
  - rewrite andb_true_iff, bool_decide_eq_true, IH. split.
    + intros [-> H]. by apply prefix_cons.
    + intros H. split; [by eapply prefix_cons_inv_1 | by eapply prefix_cons_inv_2].
Qed.

Lemma endswith_suffix (x p : str) :
  endswith x p = true ↔ p `suffix_of` x.
Proof.
  unfold endswith. rewrite startswith_prefix. symmetry. apply suffix_prefix_reverse.
Qed.

Lemma contains_infix (x p : str) :
  contains x p = true ↔ infix_of p x.
Proof.
  induction x as [|c r IH]; cbn [contains];
    rewrite orb_true_iff, startswith_prefix.
  - split.
    + intros [[k ->]|?]; [by exists [], k | done].
    + intros (a & b & H). left. exists b.
      destruct a; [done | discriminate].
  - rewrite IH. split.
    + intros [[k ->]|(a & b & ->)]; [by exists [], k | by exists (c :: a), b].
    + intros ([|c' a] & b & H); simpl in H.
      * left. by exists b.
      * right. injection H as -> ->. by exists a, b.
Qed.

(** ** The free-standing-token rule *)

Lemma contains_whole_team_spec (line team : str) :
  contains_whole_team line team = true ↔ free_standing team (lower line).
Proof.
  unfold contains_whole_team, free_standing, any; cbn [existsb id].
  rewrite !orb_true_iff, bool_decide_eq_true, !startswith_prefix,
    !endswith_suffix, !contains_infix.
  intuition discriminate.
Qed.

(** ** Membership in the result of [find_matches] *)

Lemma elem_of_scan_lines mode q pageno k lines (m : Match) :
  m ∈ scan_lines mode q pageno k lines ↔
  m_page m = pageno ∧ k ≤ m_line_num m ∧
  lines !! (m_line_num m - k) = Some (m_text m) ∧
  line_matches mode q (m_text m) = true.
Proof.
  revert k; induction lines as [|line rest IH]; intros k; cbn [scan_lines].
  - rewrite elem_of_nil, lookup_nil. split; [done | by intros (_ & _ & ? & _)].
  - rewrite elem_of_app, IH. split.
    + intros [H|(-> & Hk & Hl & Hm)].
      * destruct (line_matches mode q line) eqn:E;
          [|by apply elem_of_nil in H].
        apply list_elem_of_singleton in H as ->. cbn.
        by rewrite Nat.sub_diag.
      * repeat split; [lia | | done].
        by replace (m_line_num m - k) with (S (m_line_num m - S k)) by lia.
    + intros (Hp & Hk & Hl & Hm).
      destruct (decide (m_line_num m = k)) as [Heq|Hne].
      * left. rewrite Heq, Nat.sub_diag in Hl. injection Hl as ->.
        rewrite Hm. destruct m; cbn in *; subst. apply list_elem_of_here.
      * right. repeat split; [done | lia | | done].
        by replace (m_line_num m - k) with (S (m_line_num m - S k)) in Hl by lia.
Qed.

Lemma elem_of_find_matches doc query mode (m : Match) :
  m ∈ find_matches doc query mode ↔
  doc_line doc (m_page m) (m_line_num m) = Some (m_text m) ∧
  line_matches mode (normalize query) (m_text m) = true.
Proof.
  unfold find_matches, doc_line, scan_page.
  rewrite list_elem_of_In, in_flat_map. split.
  - intros (p & _ & Hm). apply list_elem_of_In in Hm.
    destruct (doc !! p) as [page|] eqn:Hp; [|by apply elem_of_nil in Hm].
    apply elem_of_scan_lines in Hm as (-> & _ & Hl & Hq).
    rewrite Nat.sub_0_r in Hl. by rewrite Hp.
  - intros [Hl Hq]. exists (m_page m).
    destruct (doc !! m_page m) as [page|] eqn:Hp; [|done]. cbn in Hl.
    split.
    + apply in_seq. apply lookup_lt_Some in Hp. lia.
    + apply list_elem_of_In, elem_of_scan_lines.
      rewrite Nat.sub_0_r. repeat split; [lia | done | done].
Qed.

(** ** Trimming and lower-casing *)

Lemma lstrip_suffix (x : str) : lstrip x `suffix_of` x.
Proof.
  induction x as [|c r IH]; cbn; [done|].
  destruct (isspace c); [by apply suffix_cons_r | done].
Qed.

Lemma rstrip_prefix (x : str) : rstrip x `prefix_of` x.
Proof.
  unfold rstrip. apply prefix_suffix_reverse.
  rewrite reverse_involutive. apply lstrip_suffix.
Qed.

Lemma strip_infix (x : str) : infix_of (strip x) x.
Proof.
  destruct (lstrip_suffix x) as [a Ha].
  destruct (rstrip_prefix (lstrip x)) as [b Hb].
  exists a, b. unfold strip. by rewrite <- Hb.
Qed.

Lemma lstrip_no_lead (x : str) : no_lead (lstrip x).
Proof.
  induction x as [|c r IH]; cbn; [done|].
  destruct (isspace c) eqn:E; [done | by cbn].
Qed.

Lemma lstrip_fixed (x : str) : no_lead x → lstrip x = x.
Proof. destruct x as [|c r]; cbn; [done|]. by intros ->. Qed.

Lemma rstrip_no_lead (x : str) : no_lead x → no_lead (rstrip x).
Proof.
  intros H. destruct (rstrip_prefix x) as [k Hk].
  destruct (rstrip x) as [|c r]; [done|]. by rewrite Hk in H.
Qed.

Lemma rstrip_idem (x : str) : rstrip (rstrip x) = rstrip x.
Proof.
  unfold rstrip. rewrite reverse_involutive. f_equal.
  apply lstrip_fixed, lstrip_no_lead.
Qed.

Lemma strip_idem (x : str) : strip (strip x) = strip x.
Proof.
  unfold strip. rewrite (lstrip_fixed (rstrip (lstrip x))).
  - apply rstrip_idem.
  - apply rstrip_no_lead, lstrip_no_lead.
Qed.

Lemma isspace_chr_lower (c : ascii) : isspace (chr_lower c) = isspace c.
Proof. destruct c as [[] [] [] [] [] [] [] []]; reflexivity. Qed.

Lemma chr_lower_idem (c : ascii) : chr_lower (chr_lower c) = chr_lower c.
Proof. destruct c as [[] [] [] [] [] [] [] []]; reflexivity. Qed.

Lemma lstrip_lower (x : str) : lstrip (lower x) = lower (lstrip x).
Proof.
  induction x as [|c r IH]; cbn; [done|].
  rewrite isspace_chr_lower. by destruct (isspace c).
Qed.

Lemma rstrip_lower (x : str) : rstrip (lower x) = lower (rstrip x).
Proof.
  unfold rstrip, lower. rewrite <- fmap_reverse.
  fold (lower (reverse x)). rewrite lstrip_lower.
  unfold lower. by rewrite fmap_reverse.
Qed.

Lemma strip_lower (x : str) : strip (lower x) = lower (strip x).
Proof. unfold strip. by rewrite lstrip_lower, rstrip_lower. Qed.

(** Trimming before normalizing changes nothing. *)
Lemma normalize_strip (x : str) : normalize (strip x) = normalize x.
Proof. unfold normalize. by rewrite <- strip_lower, strip_idem. Qed.

Lemma lower_idem (x : str) : lower (lower x) = lower x.
Proof.
  unfold lower. rewrite <- list_fmap_compose.
  apply list_fmap_ext. intros _ c _. apply chr_lower_idem.
Qed.

Lemma infix_of_trans (a b c : str) : infix_of a b → infix_of b c → infix_of a c.
Proof.
  intros (u & v & ->) (u' & v' & ->).
  exists (u' ++ u), (v ++ v'). by rewrite <- !(assoc_L (++)).
Qed.

Lemma lower_infix (p x : str) : infix_of p (lower x) → lower p = p.
Proof.
  intros (a & b & H). unfold lower in H.
  apply fmap_app_inv in H as (a' & r & -> & Hr & _).
  symmetry in Hr. apply fmap_app_inv in Hr as (p' & b' & -> & _ & _).
  apply lower_idem.
Qed.

(** A raw query found in a normalized line is found normalized as well. *)
Lemma infix_of_normalize (q line : str) :
  infix_of q (normalize line) → infix_of (normalize q) (normalize line).
Proof.
  intros H. unfold normalize at 1.
  rewrite (lower_infix q (strip line)); [|by rewrite <- strip_lower].
  eapply infix_of_trans; [apply strip_infix | done].
Qed.

Lemma normalize_blank (x : str) :
  Forall (fun c => isspace c = true) x → normalize x = [].
Proof.
  intros H. unfold normalize. rewrite strip_lower.
  assert (lstrip x = []) as E.
  { induction H as [|c r Hc _ IH]; cbn; [done | by rewrite Hc]. }
  unfold strip. by rewrite E.
Qed.

Lemma line_matches_team (q line : str) :
  line_matches Team_Code q line = contains_whole_team line q.
Proof. unfold line_matches. by rewrite bool_decide_eq_true_2. Qed.

Lemma line_matches_name (q line : str) :
  line_matches Swimmer_Name q line = contains (normalize line) q.
Proof. unfold line_matches. by rewrite bool_decide_eq_false_2. Qed.

(** ** Scan order *)

Lemma scan_lines_sorted mode q pageno k lines :
  StronglySorted match_lt (scan_lines mode q pageno k lines).
Proof.
  revert k; induction lines as [|line rest IH]; intros k; cbn [scan_lines].
  - constructor.
  - apply StronglySorted_app_2; [| |apply IH].
    + intros a b Ha Hb.
      destruct (line_matches mode q line); [|by apply elem_of_nil in Ha].
      apply list_elem_of_singleton in Ha as ->.
      apply elem_of_scan_lines in Hb as (Hp & Hk & _). right. cbn. lia.
    + destruct (line_matches mode q line); repeat constructor.
Qed.

Lemma scan_page_page mode q doc p (m : Match) :
  m ∈ scan_page mode q doc p → m_page m = p.
Proof.
  unfold scan_page. destruct (doc !! p); [|by intros ?%elem_of_nil].
  by intros (? & _)%elem_of_scan_lines.
Qed.

Lemma scan_pages_sorted mode q doc a n :
  StronglySorted match_lt (flat_map (scan_page mode q doc) (seq a n)) ∧
  ∀ m, m ∈ flat_map (scan_page mode q doc) (seq a n) → a ≤ m_page m.
Proof.
  revert a; induction n as [|n IH]; intros a; cbn [seq flat_map].
  - split; [constructor | by intros ? ?%elem_of_nil].
  - destruct (IH (S a)) as [IHs IHb]. split.
    + apply StronglySorted_app_2; [| |done].
      * intros x y Hx%scan_page_page Hy%IHb. left. lia.
      * unfold scan_page. destruct (doc !! a); [|constructor].
        apply scan_lines_sorted.
    + intros m [Hm%scan_page_page|Hm%IHb]%elem_of_app; lia.
Qed.

(** ** The matcher's claims *)

(** C1, as stated, fails: the claim reads the rule on the trimmed line, the
    code on the line as extracted. On the line [x<TAB>MAC-MA<SPACE>] the
    trimmed line ends with a tab followed by the query, yet [find_matches]
    reports nothing. *)
Lemma C1_trimmed_line_counterexample :
  ¬ (∀ doc query p i line,
       doc_line doc p i = Some line →
       (mkMatch p i line ∈ find_matches doc query Team_Code ↔
        free_standing (normalize query) (normalize line))).
Proof.
  intros H.
  pose (line := lit "x" ++ [TAB] ++ lit "MAC-MA ").
  specialize (H [text_page line] (lit "mac-ma") 0 0 line eq_refl).
  destruct H as [_ H].
  assert (find_matches [text_page line] (lit "mac-ma") Team_Code = []) as E
    by reflexivity.
  rewrite E in H. eapply elem_of_nil, H.
  do 4 right. left. by exists (lit "x").
Qed.

(** C1 (amended): in Team Code mode [find_matches] reports line [i] of page
    [p] exactly when the lower-cased line, not trimmed, equals the normalized
    query, starts with it followed by a space or a tab, ends with a space or
    a tab followed by it, or contains it between two spaces or between two
    tabs. A line that is exactly [MAC-MA] matches the query [mac-ma]; a line
    that is exactly [EMAC-MA] does not. *)
Theorem C1_team_code_rule :
  (∀ doc query p i line,
     mkMatch p i line ∈ find_matches doc query Team_Code ↔
     doc_line doc p i = Some line ∧
     free_standing (normalize query) (lower line)) ∧
  (∀ doc p i,
     doc_line doc p i = Some (lit "MAC-MA") →
     mkMatch p i (lit "MAC-MA") ∈ find_matches doc (lit "mac-ma") Team_Code) ∧
  (∀ doc p i,
     mkMatch p i (lit "EMAC-MA") ∉ find_matches doc (lit "mac-ma") Team_Code).
Proof.
  split; [|split].
  - intros. by rewrite elem_of_find_matches, line_matches_team,
      contains_whole_team_spec.
  - intros doc p i H. by apply elem_of_find_matches.
  - intros doc p i [_ H]%elem_of_find_matches. discriminate H.
Qed.

(** C2, as stated, fails: with an empty query Team Code mode also reports
    lines that are not blank, here one with two adjacent spaces. *)
Lemma C2_blank_only_counterexample :
  ¬ (∀ doc query p i line,
       normalize query = [] →
       mkMatch p i line ∈ find_matches doc query Team_Code →
       normalize line = []).
Proof.
  intros H.
  pose (line := lit "MAC-MA  John Smith  1:23.45").
  specialize (H [text_page line] [] 0 0 line eq_refl).
  discriminate H. by apply elem_of_find_matches.
Qed.

(** C2 (amended): for a query that is empty or white space only, Swimmer
    Name mode reports every line, and Team Code mode reports exactly the
    lines that, lower-cased, are empty, start or end with a space or a tab,
    or contain two adjacent spaces or two adjacent tabs. *)
Theorem C2_blank_query doc query p i line :
  Forall (fun c => isspace c = true) query →
  (mkMatch p i line ∈ find_matches doc query Swimmer_Name ↔
   doc_line doc p i = Some line) ∧
  (mkMatch p i line ∈ find_matches doc query Team_Code ↔
   doc_line doc p i = Some line ∧
   (lower line = [] ∨
    [SP] `prefix_of` lower line ∨ [TAB] `prefix_of` lower line ∨
    [SP] `suffix_of` lower line ∨ [TAB] `suffix_of` lower line ∨
    infix_of [SP; SP] (lower line) ∨ infix_of [TAB; TAB] (lower line))).
Proof.
  intros Hq%normalize_blank. rewrite !elem_of_find_matches, Hq. cbn [m_text].
  split.
  - rewrite line_matches_name, contains_infix. split; [by intros [? _]|].
    intros H. split; [done|]. by exists [], (normalize line).
  - by rewrite line_matches_team, contains_whole_team_spec.
Qed.

(** C4: in Swimmer Name mode [find_matches] reports line [i] of page [p]
    exactly when the normalized query is a substring of the normalized line;
    in particular a line is reported whenever the query occurs in the
    normalized line. *)
Theorem C4_swimmer_name_substring :
  (∀ doc query p i line,
     mkMatch p i line ∈ find_matches doc query Swimmer_Name ↔
     doc_line doc p i = Some line ∧
     infix_of (normalize query) (normalize line)) ∧
  (∀ doc query p i line,
     doc_line doc p i = Some line →
     infix_of query (normalize line) →
     mkMatch p i line ∈ find_matches doc query Swimmer_Name).
Proof.
  assert (∀ doc query p i line,
     mkMatch p i line ∈ find_matches doc query Swimmer_Name ↔
     doc_line doc p i = Some line ∧
     infix_of (normalize query) (normalize line)) as H.
  { intros. by rewrite elem_of_find_matches, line_matches_name,
      contains_infix. }
  split; [done|].
  intros doc query p i line Hl Hq. apply H. split; [done|].
  by apply infix_of_normalize.
Qed.

(** C8: the result of [find_matches] is in scan order, by page and within a
    page by line, and it holds exactly the lines that pass the test of the
    mode, each with the zero-based index of its page, the zero-based index
    of its line among the plain-text lines of that page and the line as
    extracted. *)
Theorem C8_scan_order doc query mode :
  StronglySorted match_lt (find_matches doc query mode) ∧
  ∀ m, m ∈ find_matches doc query mode ↔
       doc_line doc (m_page m) (m_line_num m) = Some (m_text m) ∧
       line_matches mode (normalize query) (m_text m) = true.
Proof.
  split.
  - apply scan_pages_sorted.
  - intros m. apply elem_of_find_matches.
Qed.

(** The tab-delimited and the longer-code examples of the rule, and the
    scan order over two pages. *)
Example team_code_before_tab :
  find_matches [text_page (lit "MAC-MA" ++ [TAB] ++ lit "Results")]
    (lit "mac-ma") Team_Code
  = [mkMatch 0 0 (lit "MAC-MA" ++ [TAB] ++ lit "Results")].
Proof. reflexivity. Qed.

Example team_code_longer_code :
  find_matches [text_page (lit "Team MAC-MAX")] (lit "mac-ma") Team_Code = [].
Proof. reflexivity. Qed.

Example swimmer_name_any_case :
  find_matches [text_page (lit "John Smith")] (lit "JOHN SMITH") Swimmer_Name
  = [mkMatch 0 0 (lit "John Smith")].
Proof. reflexivity. Qed.

Example scan_order_two_pages :
  find_matches
    [text_page (unlines [lit "a"; lit "b"; lit "MAC-MA x"]);
     text_page (unlines [lit "MAC-MA y"; lit "c"])]
    (lit "mac-ma") Team_Code
  = [mkMatch 0 2 (lit "MAC-MA x"); mkMatch 1 0 (lit "MAC-MA y")].
Proof. reflexivity. Qed.

(** ** Bounding rectangles *)

Lemma Qle_bool_false (a b : Q) : Qle_bool a b = false → (b <= a)%Q.
Proof.
  intros H. apply Qlt_le_weak, Qnot_le_lt. intros Hle.
  apply Qle_bool_iff in Hle. congruence.
Qed.

Lemma fold_min_spec (r : list Q) (a : Q) :
  is_min (fold_left (fun best y => if Qle_bool best y then best else y) r a)
         (a :: r).
Proof.
  revert a; induction r as [|y r IH]; intros a; cbn [fold_left].
  - split; [apply list_elem_of_here|].
    intros b ->%list_elem_of_singleton. apply Qle_refl.
  - destruct (Qle_bool a y) eqn:E.
    + destruct (IH a) as [Hin Hle]. split.
      * apply elem_of_cons in Hin as [->|Hin];
          [apply list_elem_of_here | by do 2 apply list_elem_of_further].
      * intros b [->|[->|Hb]%elem_of_cons]%elem_of_cons.
        -- apply Hle, list_elem_of_here.
        -- eapply Qle_trans; [apply Hle, list_elem_of_here|].
           by apply Qle_bool_iff.
        -- by apply Hle, list_elem_of_further.
    + destruct (IH y) as [Hin Hle]. split.
      * by apply list_elem_of_further.
      * intros b [->|Hb]%elem_of_cons; [|by apply Hle].
        eapply Qle_trans; [apply Hle, list_elem_of_here|].
        by apply Qle_bool_false.
Qed.

Lemma fold_max_spec (r : list Q) (a : Q) :
  is_max (fold_left (fun best y => if Qle_bool y best then best else y) r a)
         (a :: r).
Proof.
  revert a; induction r as [|y r IH]; intros a; cbn [fold_left].
  - split; [apply list_elem_of_here|].
    intros b ->%list_elem_of_singleton. apply Qle_refl.
  - destruct (Qle_bool y a) eqn:E.
    + destruct (IH a) as [Hin Hle]. split.
      * apply elem_of_cons in Hin as [->|Hin];
          [apply list_elem_of_here | by do 2 apply list_elem_of_further].
      * intros b [->|[->|Hb]%elem_of_cons]%elem_of_cons.
        -- apply Hle, list_elem_of_here.
        -- eapply Qle_trans; [|apply Hle, list_elem_of_here].
           by apply Qle_bool_iff.
        -- by apply Hle, list_elem_of_further.
    + destruct (IH y) as [Hin Hle]. split.
      * by apply list_elem_of_further.
      * intros b [->|Hb]%elem_of_cons; [|by apply Hle].
        eapply Qle_trans; [|apply Hle, list_elem_of_here].
        by apply Qle_bool_false.
Qed.

Lemma py_min_spec (l : list Q) (a : Q) : py_min l = Ok a → is_min a l.
Proof.
  destruct l as [|b r]; [done|]. intros [= <-]. apply fold_min_spec.
Qed.

Lemma py_max_spec (l : list Q) (a : Q) : py_max l = Ok a → is_max a l.
Proof.
  destruct l as [|b r]; [done|]. intros [= <-]. apply fold_max_spec.
Qed.

Lemma py_min_err (l : list Q) e : py_min l = Err e → e = ValueError ∧ l = [].
Proof. destruct l; [by intros [= <-] | done]. Qed.

Lemma py_max_err (l : list Q) e : py_max l = Err e → e = ValueError ∧ l = [].
Proof. destruct l; [by intros [= <-] | done]. Qed.

Lemma bind_ok {A B : Type} (m : result A) (f : A → result B) (b : B) :
  m ≫= f = Ok b → ∃ a, m = Ok a ∧ f a = Ok b.
Proof. destruct m as [a|e]; [by exists a | done]. Qed.

Lemma line_rect_spec (line : Line) (r : Rect) :
  line_rect line = Ok r → is_union line r.
Proof.
  unfold line_rect, is_union. intros H.
  apply bind_ok in H as (a & Ha%py_min_spec & H).
  apply bind_ok in H as (b & Hb%py_min_spec & H).
  apply bind_ok in H as (c & Hc%py_max_spec & H).
  apply bind_ok in H as (d & Hd%py_max_spec & H).
  by injection H as <-.
Qed.

Lemma line_rect_err (line : Line) e :
  line_rect line = Err e → e = ValueError ∧ line_spans line = [].
Proof.
  unfold line_rect. destruct (line_spans line) as [|sp r]; cbn.
  - by intros [= <-].
  - done.
Qed.

Lemma line_rect_ok (line : Line) :
  line_spans line ≠ [] → ∃ r, line_rect line = Ok r.
Proof.
  unfold line_rect. destruct (line_spans line) as [|sp r]; [done|].
  intros _. cbn. eauto.
Qed.

(** ** What the loops of [highlight_lines] draw *)

Lemma add_annots_nil (page : Page) : add_annots [] page = page.
Proof. destruct page. unfold add_annots; cbn. by rewrite app_nil_r. Qed.

Lemma add_annots_app (a b : list Rect) (page : Page) :
  add_annots b (add_annots a page) = add_annots (a ++ b) page.
Proof. unfold add_annots; cbn. by rewrite <- (assoc_L (++)). Qed.

Lemma alter_add_annots (a b : list Rect) (p : nat) (doc : Document) :
  alter (add_annots b) p (alter (add_annots a) p doc)
  = alter (add_annots (a ++ b)) p doc.
Proof.
  rewrite list_alter_alter_eq. apply list_alter_ext; [|done].
  intros page _. apply add_annots_app.
Qed.

Lemma hits_in_strip (t : str) (lines : list Line) :
  hits_in (strip t) lines = hits_in t lines.
Proof. unfold hits_in. by rewrite normalize_strip. Qed.

Lemma for_each_lines_ok p t lines (doc doc' : Document) :
  for_each (highlight_line p t) lines doc = Ok doc' →
  ∃ rects, drawn_for (hits_in t lines) rects ∧
           doc' = alter (add_annots rects) p doc.
Proof.
  unfold drawn_for, hits_in.
  revert doc; induction lines as [|l lines IH]; intros doc; cbn [for_each].
  - intros [= <-]. exists []. split; [constructor|].
    symmetry. apply list_alter_id, add_annots_nil.
  - intros H. apply bind_ok in H as (d1 & H1 & H).
    unfold highlight_line in H1. case_bool_decide as Hhit.
    + apply bind_ok in H1 as (rect & Hr & [= <-]).
      apply IH in H as (rects & HF & ->). exists (rect :: rects). split.
      * rewrite filter_cons_True by done. by constructor.
      * unfold add_highlight_annot. apply alter_add_annots.
    + injection H1 as <-. apply IH in H as (rects & HF & ->).
      exists rects. by rewrite filter_cons_False.
Qed.

Lemma for_each_blocks_ok p t blocks (doc doc' : Document) :
  for_each (highlight_block p t) blocks doc = Ok doc' →
  ∃ rects,
    drawn_for
      (hits_in t (flat_map block_lines
                    (filter (fun b => block_type b = 0%Z) blocks))) rects ∧
    doc' = alter (add_annots rects) p doc.
Proof.
  revert doc; induction blocks as [|b blocks IH]; intros doc; cbn [for_each].
  - intros [= <-]. exists []. split; [constructor|].
    symmetry. apply list_alter_id, add_annots_nil.
  - intros H. apply bind_ok in H as (d1 & H1 & H).
    unfold highlight_block in H1. case_bool_decide as Hty.
    + injection H1 as <-. apply IH in H as (rects & HF & ->).
      exists rects. by rewrite filter_cons_False.
    + apply for_each_lines_ok in H1 as (r1 & HF1 & ->).
      apply IH in H as (r2 & HF2 & ->). exists (r1 ++ r2). split.
      * rewrite filter_cons_True by (by destruct (decide (block_type b = 0%Z))).
        cbn [flat_map]. unfold hits_in in *. rewrite filter_app.
        by apply Forall2_app.
      * apply alter_add_annots.
Qed.

Lemma highlight_match_ok m (doc doc' : Document) :
  highlight_match m doc = Ok doc' →
  ∃ page rects,
    doc !! m_page m = Some page ∧
    drawn_for (hits (m_text m) page) rects ∧
    doc' = alter (add_annots rects) (m_page m) doc.
Proof.
  unfold highlight_match. destruct (doc !! m_page m) as [page|] eqn:Hp; [|done].
  intros (rects & HF & ->)%for_each_blocks_ok.
  exists page, rects. split; [done|]. split; [|done].
  unfold hits, text_lines. by rewrite <- hits_in_strip.
Qed.

Lemma page_hits_add_annots ms p rs page :
  page_hits ms p (add_annots rs page) = page_hits ms p page.
Proof. reflexivity. Qed.

Lemma page_hits_app ms1 ms2 p page :
  page_hits (ms1 ++ ms2) p page = page_hits ms1 p page ++ page_hits ms2 p page.
Proof. unfold page_hits. by rewrite filter_app, flat_map_app. Qed.

(** A successful run keeps the page count and, on every page, the text and
    the layout, and appends one rectangle per hit, in order. *)
Lemma for_each_matches_ok ms (doc doc' : Document) :
  for_each highlight_match ms doc = Ok doc' →
  length doc' = length doc ∧
  ∀ p page, doc !! p = Some page →
    ∃ rects, doc' !! p = Some (add_annots rects page) ∧
             drawn_for (page_hits ms p page) rects.
Proof.
  revert doc; induction ms as [|m ms IH]; intros doc; cbn [for_each].
  - intros [= <-]. split; [done|]. intros p page Hp. exists [].
    rewrite add_annots_nil. split; [done | constructor].
  - intros H. apply bind_ok in H as (d1 & H1 & H).
    apply highlight_match_ok in H1 as (pm & rs & Hpm & Hrs & ->).
    apply IH in H as [Hlen H]. split; [by rewrite Hlen, length_alter|].
    intros p page Hp. destruct (decide (m_page m = p)) as [<-|Hne].
    + rewrite Hpm in Hp. injection Hp as ->.
      destruct (H (m_page m) (add_annots rs page)) as (rects & Hd & HF).
      { by rewrite list_lookup_alter_eq, Hpm. }
      exists (rs ++ rects). rewrite Hd, add_annots_app. split; [done|].
      unfold page_hits. rewrite filter_cons_True by done. cbn [flat_map].
      by apply Forall2_app.
    + destruct (H p page) as (rects & Hd & HF).
      { by rewrite list_lookup_alter_ne. }
      exists rects. split; [done|].
      unfold page_hits. by rewrite filter_cons_False.
Qed.

(** ** How the loops fail *)

Lemma for_each_err {A S : Type} (P : error → Prop)
    (body : A → S → result S) (l : list A) (st : S) (e : error) :
  (∀ a st', body a st' = Err e → P e) →
  for_each body l st = Err e → P e.
Proof.
  intros Hb. revert st; induction l as [|a l IH]; intros st; cbn [for_each].
  - done.
  - destruct (body a st) as [st'|e'] eqn:E; cbn.
    + apply IH.
    + intros [= ->]. by eapply Hb.
Qed.

Lemma highlight_line_err p t line (doc : Document) e :
  highlight_line p t line doc = Err e → e = ValueError.
Proof.
  unfold highlight_line. case_bool_decide; [|done].
  destruct (line_rect line) as [r|e'] eqn:E; [done|].
  cbn. intros [= <-]. by apply line_rect_err in E as [-> _].
Qed.

Lemma highlight_block_err p t block (doc : Document) e :
  highlight_block p t block doc = Err e → e = ValueError.
Proof.
  unfold highlight_block. case_bool_decide; [done|].
  apply (for_each_err (fun e => e = ValueError)).
  intros ??. apply highlight_line_err.
Qed.

(** [IndexError] comes from the page lookup alone. *)
Lemma highlight_match_err m (doc : Document) e :
  highlight_match m doc = Err e →
  (e = IndexError ∧ doc !! m_page m = None) ∨
  (e = ValueError ∧ is_Some (doc !! m_page m)).
Proof.
  unfold highlight_match. destruct (doc !! m_page m) as [page|].
  - intros H. right. split; [|done]. revert H.
    apply (for_each_err (fun e => e = ValueError)).
    intros ??. apply highlight_block_err.
  - intros [= <-]. by left.
Qed.

Lemma for_each_matches_err ms (doc : Document) e :
  for_each highlight_match ms doc = Err e →
  (e = IndexError ∧ ∃ m, m ∈ ms ∧ length doc ≤ m_page m) ∨ e = ValueError.
Proof.
  revert doc; induction ms as [|m ms IH]; intros doc; cbn [for_each]; [done|].
  destruct (highlight_match m doc) as [d1|e'] eqn:E; cbn.
  - intros H. apply IH in H as [[He (m' & Hm' & Hle)]|He]; [left | by right].
    split; [done|]. exists m'. split; [by apply list_elem_of_further|].
    apply highlight_match_ok in E as (? & ? & _ & _ & ->).
    by rewrite length_alter in Hle.
  - intros [= ->]. apply highlight_match_err in E as [[He Hn]|[He _]];
      [left | by right].
    split; [done|]. exists m. split; [apply list_elem_of_here|].
    by apply lookup_ge_None.
Qed.

(** ** Running the loops forward *)

Lemma for_each_app {A S : Type} (body : A → S → result S)
    (l1 l2 : list A) (st : S) :
  for_each body (l1 ++ l2) st = for_each body l1 st ≫= for_each body l2.
Proof.
  revert st; induction l1 as [|a l1 IH]; intros st; cbn [for_each app];
    [done|].
  destruct (body a st) as [st'|e]; cbn; [apply IH | done].
Qed.

Lemma highlight_line_hit p t line (doc : Document) :
  normalize (line_text line) = normalize t →
  highlight_line p t line doc
  = rect ← line_rect line; Ok (add_highlight_annot p rect doc).
Proof. intros H. unfold highlight_line. by rewrite bool_decide_eq_true_2. Qed.

Lemma highlight_line_miss p t line (doc : Document) :
  normalize (line_text line) ≠ normalize t →
  highlight_line p t line doc = Ok doc.
Proof. intros H. unfold highlight_line. by rewrite bool_decide_eq_false_2. Qed.

Lemma highlight_block_text p t block (doc : Document) :
  block_type block = 0%Z →
  highlight_block p t block doc
  = for_each (highlight_line p t) (block_lines block) doc.
Proof.
  intros H. unfold highlight_block. rewrite bool_decide_eq_false_2; [done|].
  by intros ?.
Qed.

Lemma highlight_block_other p t block (doc : Document) :
  block_type block ≠ 0%Z → highlight_block p t block doc = Ok doc.
Proof. intros H. unfold highlight_block. by rewrite bool_decide_eq_true_2. Qed.

Lemma for_each_lines_run p t lines (doc : Document) rects :
  drawn_for (hits_in t lines) rects →
  for_each (highlight_line p t) lines doc
  = Ok (alter (add_annots rects) p doc).
Proof.
  unfold drawn_for, hits_in.
  revert doc rects; induction lines as [|l lines IH]; intros doc rects;
    cbn [for_each].
  - intros H. apply Forall2_nil_inv_l in H as ->.
    f_equal. symmetry. apply list_alter_id, add_annots_nil.
  - destruct (decide (normalize (line_text l) = normalize t)) as [Hhit|Hhit].
    + rewrite filter_cons_True, highlight_line_hit by done.
      intros (r & rs & Hr & HF & ->)%Forall2_cons_inv_l.
      rewrite Hr. cbn. rewrite (IH _ rs HF). f_equal.
      apply (alter_add_annots [r] rs).
    + rewrite filter_cons_False, highlight_line_miss by done. cbn. apply IH.
Qed.

Lemma for_each_blocks_run p t blocks (doc : Document) rects :
  drawn_for
    (hits_in t (flat_map block_lines
                  (filter (fun b => block_type b = 0%Z) blocks))) rects →
  for_each (highlight_block p t) blocks doc
  = Ok (alter (add_annots rects) p doc).
Proof.
  unfold drawn_for.
  revert doc rects; induction blocks as [|b blocks IH]; intros doc rects;
    cbn [for_each].
  - intros H. apply Forall2_nil_inv_l in H as ->.
    f_equal. symmetry. apply list_alter_id, add_annots_nil.
  - destruct (decide (block_type b = 0%Z)) as [Hty|Hty].
    + rewrite filter_cons_True, highlight_block_text by done.
      cbn [flat_map]. unfold hits_in. rewrite filter_app.
      intros (r1 & r2 & H1 & H2 & ->)%Forall2_app_inv_l.
      rewrite (for_each_lines_run _ _ _ _ r1 H1). cbn.
      rewrite (IH _ r2 H2). f_equal. apply alter_add_annots.
    + rewrite filter_cons_False, highlight_block_other by done. cbn. apply IH.
Qed.

Lemma highlight_match_run m (doc : Document) page rects :
  doc !! m_page m = Some page →
  drawn_for (hits (m_text m) page) rects →
  highlight_match m doc = Ok (alter (add_annots rects) (m_page m) doc).
Proof.
  intros Hp HF. unfold highlight_match. rewrite Hp.
  apply for_each_blocks_run.
  unfold hits, text_lines in HF. by rewrite hits_in_strip.
Qed.

(** A match that no visited line equals leaves the document as it is. *)
Lemma highlight_match_skip m (doc : Document) page :
  doc !! m_page m = Some page →
  hits (m_text m) page = [] →
  highlight_match m doc = Ok doc.
Proof.
  intros Hp Hn. rewrite (highlight_match_run m doc page []); [|done|].
  - f_equal. apply list_alter_id, add_annots_nil.
  - rewrite Hn. constructor.
Qed.

Lemma hits_nil (t : str) (page : Page) :
  (∀ line, line ∈ text_lines page →
           normalize (line_text line) ≠ normalize t) →
  hits t page = [].
Proof.
  intros H. unfold hits, hits_in.
  destruct (filter _ _) as [|l r] eqn:E; [done|].
  assert (l ∈ l :: r) as Hl by apply list_elem_of_here.
  rewrite <- E in Hl. apply list_elem_of_filter in Hl as [Heq Hin].
  by apply H in Hin.
Qed.

(** The highlighter succeeds when every match names a page of the document
    and every layout line carries a span. *)
Lemma for_each_matches_total ms (doc : Document) :
  Forall (fun m => m_page m < length doc) ms →
  (∀ p page line, doc !! p = Some page → line ∈ text_lines page →
                  line_spans line ≠ []) →
  ∃ doc', for_each highlight_match ms doc = Ok doc'.
Proof.
  revert doc; induction ms as [|m ms IH]; intros doc Hms Hsp; cbn [for_each].
  - by exists doc.
  - apply Forall_cons in Hms as [Hm Hms].
    apply lookup_lt_is_Some in Hm as [page Hp].
    assert (∃ rects, drawn_for (hits (m_text m) page) rects) as [rects HF].
    { assert (∀ line, line ∈ hits (m_text m) page → line_spans line ≠ [])
        as Hh.
      { intros line [_ Hl]%list_elem_of_filter. by eapply Hsp. }
      unfold drawn_for. induction (hits (m_text m) page) as [|l ls IHl].
      - exists []. constructor.
      - destruct IHl as [rs Hrs].
        { intros ??. by apply Hh, list_elem_of_further. }
        destruct (line_rect_ok l) as [r Hr].
        { apply Hh, list_elem_of_here. }
        exists (r :: rs). by constructor. }
    rewrite (highlight_match_run m doc page rects Hp HF). cbn.
    apply IH.
    + by rewrite length_alter.
    + intros p pg line Hpg. destruct (decide (m_page m = p)) as [<-|Hne].
      * rewrite list_lookup_alter_eq, Hp in Hpg. injection Hpg as <-.
        intros Hl. by apply (Hsp (m_page m) page line).
      * rewrite list_lookup_alter_ne in Hpg by done.
        intros Hl. by apply (Hsp p pg line).
Qed.

(** ** The highlighter's claims *)

Section HighlighterClaims.

Variable open_pdf : list Byte.byte → option Document.
Variable save : Document → option (list Byte.byte).

Lemma highlight_ok input_bytes matches out doc :
  open_pdf input_bytes = Some doc →
  highlight_lines open_pdf save input_bytes matches = Ok out →
  ∃ doc', for_each highlight_match matches doc = Ok doc' ∧
          save doc' = Some out.
Proof.
  unfold highlight_lines. intros ->.
  intros (doc' & Hrun & Hs)%bind_ok. exists doc'. split; [done|].
  destruct (save doc'); [by injection Hs as -> | done].
Qed.

(** The loops of the highlighter run to their end when the input opens,
    every match names a page of the document and every layout line carries
    a span; what is returned is then the outcome of the save. *)
Lemma highlight_lines_total input_bytes matches doc :
  open_pdf input_bytes = Some doc →
  Forall (fun m => m_page m < length doc) matches →
  (∀ p page line, doc !! p = Some page → line ∈ text_lines page →
                  line_spans line ≠ []) →
  ∃ doc', for_each highlight_match matches doc = Ok doc' ∧
          highlight_lines open_pdf save input_bytes matches
          = saved (save doc').
Proof.
  intros Hopen Hms Hsp. unfold highlight_lines. rewrite Hopen.
  destruct (for_each_matches_total matches doc Hms Hsp) as [doc' ->].
  by exists doc'.
Qed.

(** C3: [highlight_lines] fails with the document error exactly when the
    bytes do not open as a document, and then it returns no bytes. *)
Theorem C3_document_error input_bytes matches :
  (highlight_lines open_pdf save input_bytes matches = Err DocumentError ↔
   open_pdf input_bytes = None) ∧
  (open_pdf input_bytes = None →
   ∀ out, highlight_lines open_pdf save input_bytes matches ≠ Ok out).
Proof.
  unfold highlight_lines. destruct (open_pdf input_bytes) as [doc|].
  - split; [|done]. split; [|done].
    destruct (for_each highlight_match matches doc) as [d|e] eqn:E; cbn.
    + by destruct (save d).
    + intros [= ->]. by apply for_each_matches_err in E as [[? _]|?].
  - split; [done|]. by intros _ out.
Qed.

(** C5: after a successful run, for each match and each line of a text
    block of its page whose spans' texts, joined by single spaces, trimmed
    and normalized, equal the normalized text of the match, the page
    carries a highlight whose rectangle is the union of the line's span
    boxes: least [x0] and [y0], greatest [x1] and [y1]. *)
Theorem C5_union_rectangle input_bytes matches out doc m page line :
  open_pdf input_bytes = Some doc →
  highlight_lines open_pdf save input_bytes matches = Ok out →
  m ∈ matches →
  doc !! m_page m = Some page →
  line ∈ text_lines page →
  normalize (line_text line) = normalize (m_text m) →
  ∃ doc' page' rect,
    save doc' = Some out ∧
    doc' !! m_page m = Some page' ∧
    rect ∈ page_annots page' ∧
    is_union line rect.
Proof.
  intros Hopen Hrun Hm Hp Hl Heq.
  destruct (highlight_ok _ _ _ _ Hopen Hrun) as (doc' & Hfor & Hsv).
  apply for_each_matches_ok in Hfor as [_ Hpages].
  destruct (Hpages _ _ Hp) as (rects & Hd & HF).
  assert (line ∈ page_hits matches (m_page m) page) as Hin.
  { apply list_elem_of_In, in_flat_map. exists m. split.
    - apply list_elem_of_In, list_elem_of_filter. by split.
    - apply list_elem_of_In, list_elem_of_filter. by split. }
  apply list_elem_of_lookup in Hin as [i Hi].
  destruct (Forall2_lookup_l _ _ _ _ _ HF Hi) as (rect & Hr & Hrect).
  exists doc', (add_annots rects page), rect.
  split; [done|]. split; [done|]. split.
  - cbn. apply elem_of_app. right. by eapply list_elem_of_lookup_2.
  - by apply line_rect_spec.
Qed.

(** C6: after a successful run, for each match, all the lines of its page
    that normalize to the text of the match are highlighted, one
    annotation per line and in layout order, not the first one only. *)
Theorem C6_every_equal_line input_bytes matches out doc m page :
  open_pdf input_bytes = Some doc →
  highlight_lines open_pdf save input_bytes matches = Ok out →
  m ∈ matches →
  doc !! m_page m = Some page →
  ∃ doc' page' rects before after,
    save doc' = Some out ∧
    doc' !! m_page m = Some page' ∧
    Forall2 is_union (hits (m_text m) page) rects ∧
    page_annots page' = before ++ rects ++ after.
Proof.
  intros Hopen Hrun Hm Hp.
  destruct (highlight_ok _ _ _ _ Hopen Hrun) as (doc' & Hfor & Hsv).
  apply for_each_matches_ok in Hfor as [_ Hpages].
  destruct (Hpages _ _ Hp) as (rects & Hd & HF).
  apply list_elem_of_split in Hm as (ms1 & ms2 & ->).
  unfold drawn_for in HF.
  rewrite page_hits_app in HF.
  apply Forall2_app_inv_l in HF as (r1 & r' & _ & HF & ->).
  unfold page_hits in HF. rewrite filter_cons_True in HF by done.
  cbn [flat_map] in HF.
  apply Forall2_app_inv_l in HF as (rm & r2 & HF & _ & ->).
  exists doc', (add_annots (r1 ++ rm ++ r2) page), rm,
    (page_annots page ++ r1), r2.
  split; [done|]. split; [done|]. split.
  - eapply Forall2_impl; [exact HF|]. intros ??. apply line_rect_spec.
  - cbn. by rewrite <- !(assoc_L (++)).
Qed.

(** C7: a match whose page has no text-block line that rebuilds to its
    normalized text is passed over: its step returns the document as it
    is, whatever was drawn before, without an error, and the run goes on
    to the matches after it, ending as if the match were not in the
    list. *)
Theorem C7_unlocated_match_skipped input_bytes ms1 m ms2 doc page :
  open_pdf input_bytes = Some doc →
  doc !! m_page m = Some page →
  (∀ line, line ∈ text_lines page →
           normalize (line_text line) ≠ normalize (m_text m)) →
  (∀ (d : Document) rects,
     d !! m_page m = Some (add_annots rects page) →
     highlight_match m d = Ok d) ∧
  highlight_lines open_pdf save input_bytes (ms1 ++ m :: ms2)
  = highlight_lines open_pdf save input_bytes (ms1 ++ ms2).
Proof.
  intros Hopen Hp Hno. apply hits_nil in Hno.
  assert (∀ (d : Document) rects,
     d !! m_page m = Some (add_annots rects page) →
     highlight_match m d = Ok d) as Hskip.
  { intros d rects Hd. by eapply highlight_match_skip. }
  split; [done|].
  unfold highlight_lines. rewrite Hopen, !for_each_app.
  destruct (for_each highlight_match ms1 doc) as [d1|e] eqn:E; [|done].
  cbn. apply for_each_matches_ok in E as [_ Hpages].
  destruct (Hpages _ _ Hp) as (rects & Hd & _).
  by rewrite (Hskip d1 rects Hd).
Qed.


(** C10: every match that [find_matches] returns names a page of the
    document and a line of that page's plain text; so running
    [highlight_lines] on the bytes of that document with these matches
    never fails in the page lookup. *)
Theorem C10_indices_in_range input_bytes doc query mode :
  open_pdf input_bytes = Some doc →
  (∀ m, m ∈ find_matches doc query mode →
     m_page m < length doc ∧
     ∃ page, doc !! m_page m = Some page ∧
             m_line_num m < length (splitlines (page_text page))) ∧
  highlight_lines open_pdf save input_bytes (find_matches doc query mode) ≠ Err IndexError.
Proof.
  intros Hopen.
  assert (∀ m, m ∈ find_matches doc query mode →
     m_page m < length doc ∧
     ∃ page, doc !! m_page m = Some page ∧
             m_line_num m < length (splitlines (page_text page))) as Hb.
  { intros m [Hl _]%elem_of_find_matches. unfold doc_line in Hl.
    destruct (doc !! m_page m) as [page|] eqn:Hp; cbn in Hl; [|done].
    split; [by eapply lookup_lt_Some|].
    exists page. split; [done|]. by eapply lookup_lt_Some. }
  split; [done|].
  unfold highlight_lines. rewrite Hopen.
  destruct (for_each highlight_match _ doc) as [d|e] eqn:E; cbn;
    [by destruct (save d)|].
  intros [= ->].
  apply for_each_matches_err in E as [[_ (m & Hm & Hle)]|?]; [|done].
  apply Hb in Hm as [Hlt _]. lia.
Qed.

End HighlighterClaims.

(** ** The text-only container round-trips *)

Lemma open_from_enc_text (cur t : str) (rest : list Byte.byte) :
  TextOnly.open_from cur (TextOnly.enc_text t ++ Byte.x00 :: rest)
  = cons (text_page (reverse cur ++ t)) <$> TextOnly.open_from [] rest.
Proof.
  revert cur; induction t as [|c t IH]; intros cur.
  - cbn. by rewrite (right_id_L [] (++)).
  - change (TextOnly.enc_text (c :: t) ++ Byte.x00 :: rest)
      with (Byte.x01 :: byte_of_ascii c
              :: (TextOnly.enc_text t ++ Byte.x00 :: rest)).
    cbn [TextOnly.open_from].
    rewrite ascii_of_byte_of_ascii, IH, reverse_cons.
    by rewrite <- (assoc_L (++)).
Qed.

Lemma text_only_round_trip (d : Document) :
  TextOnly.open (TextOnly.enc d)
  = Some ((fun page => text_page (page_text page)) <$> d).
Proof.
  unfold TextOnly.open. induction d as [|page d IH]; [done|].
  change (TextOnly.enc (page :: d))
    with ((TextOnly.enc_text (page_text page) ++ [Byte.x00])
            ++ TextOnly.enc d).
  rewrite <- (assoc_L (++)). cbn [app].
  by rewrite open_from_enc_text, IH.
Qed.

(** What the container saves opens again with the text of every page. *)
Lemma text_only_keeps_text (d : Document) (b : list Byte.byte) :
  TextOnly.save d = Some b →
  ∃ d', TextOnly.open b = Some d' ∧ page_text <$> d' = page_text <$> d.
Proof.
  destruct d as [|page d]; [done|]. intros [= <-].
  exists ((fun pg => text_page (page_text pg)) <$> (page :: d)).
  split; [exact (text_only_round_trip (page :: d))|].
  rewrite <- list_fmap_compose. by apply list_fmap_ext.
Qed.

(** ** The claims on the sample sheet *)


(** C2 on the sample: a query of two spaces, in Team Code mode, reports the
    name line, which holds two adjacent spaces and is not blank. *)
Lemma C2_blank_query_witness :
  mkMatch 0 1 sample_name_line ∈ find_matches sample_doc (lit "  ") Team_Code.
Proof.
  destruct (C2_blank_query sample_doc (lit "  ") 0 1 sample_name_line)
    as [_ H].
  - repeat constructor.
  - apply H. split; [reflexivity|].
    do 5 right. left. by exists (lit "mac-ma"), (lit "john smith").
Defined.

(** C5 on the sample: the first name line gets the union of its two spans. *)
Lemma C5_union_rectangle_witness :
  ∃ doc' page' rect,
    sample_save doc' = Some sample_out ∧
    doc' !! 0 = Some page' ∧
    rect ∈ page_annots page' ∧
    is_union sample_first rect.
Proof.
  apply (C5_union_rectangle sample_open sample_save sample_bytes
           sample_matches sample_out sample_doc
           (mkMatch 0 1 sample_name_line)
           sample_page sample_first).
  - reflexivity.
  - reflexivity.
  - apply list_elem_of_here.
  - reflexivity.
  - apply list_elem_of_further, list_elem_of_here.
  - reflexivity.
Defined.

(** C6 on the sample: both name lines are highlighted for one match. *)
Lemma C6_every_equal_line_witness :
  ∃ doc' page' rects before after,
    sample_save doc' = Some sample_out ∧
    doc' !! 0 = Some page' ∧
    Forall2 is_union [sample_first; sample_second] rects ∧
    page_annots page' = before ++ rects ++ after.
Proof.
  apply (C6_every_equal_line sample_open sample_save sample_bytes
           sample_matches sample_out sample_doc
           (mkMatch 0 1 sample_name_line)
           sample_page).
  - reflexivity.
  - reflexivity.
  - apply list_elem_of_here.
  - reflexivity.
Defined.

(** C7 on the sample: the line of team EMAC-MA is cut in two in the layout,
    so its match is passed over, between two matches that are drawn. *)
Lemma C7_unlocated_match_skipped_witness :
  highlight_match (mkMatch 0 2 sample_cut_line) sample_doc = Ok sample_doc ∧
  highlight_lines sample_open sample_save sample_bytes
    ([mkMatch 0 1 sample_name_line] ++
     mkMatch 0 2 sample_cut_line :: [mkMatch 0 3 sample_name_line])
  = highlight_lines sample_open sample_save sample_bytes
      ([mkMatch 0 1 sample_name_line] ++ [mkMatch 0 3 sample_name_line]).
Proof.
  destruct (C7_unlocated_match_skipped sample_open sample_save sample_bytes
              [mkMatch 0 1 sample_name_line] (mkMatch 0 2 sample_cut_line)
              [mkMatch 0 3 sample_name_line] sample_doc sample_page)
    as [H1 H2].
  - reflexivity.
  - reflexivity.
  - intros line Hin. apply list_elem_of_In in Hin. cbn in Hin.
    destruct Hin as [<-|[<-|[<-|[<-|[<-|[]]]]]]; discriminate.
  - split; [|exact H2]. apply (H1 sample_doc []). reflexivity.
Defined.


(** C10 on the sample: the matches found on the sheet never make the
    highlighter's page lookup fail. *)
Lemma C10_indices_in_range_witness :
  highlight_lines sample_open sample_save sample_bytes sample_matches
  ≠ Err IndexError.
Proof.
  apply (C10_indices_in_range sample_open sample_save sample_bytes
           sample_doc (lit "mac-ma") Team_Code).
  reflexivity.
Defined.

(** * Further properties of the code *)

(** ** Normalizing *)

Lemma normalize_trimmed (x : str) :
  no_lead (normalize x) ∧ no_lead (reverse (normalize x)).
Proof.
  split.
  - apply rstrip_no_lead, lstrip_no_lead.
  - unfold normalize, strip, rstrip. rewrite reverse_involutive.
    apply lstrip_no_lead.
Qed.

(** X1: [normalize] is idempotent, its result is in lower case and neither
    begins nor ends with white space. *)
Theorem normalize_normal_form (x : str) :
  normalize (normalize x) = normalize x ∧
  lower (normalize x) = normalize x ∧
  (∀ c r, normalize x = c :: r → isspace c = false) ∧
  (∀ r c, normalize x = r ++ [c] → isspace c = false).
Proof.
  destruct (normalize_trimmed x) as [Hl Hr].
  split; [|split; [|split]].
  - unfold normalize. by rewrite <- strip_lower, strip_idem, lower_idem.
  - unfold normalize. by rewrite <- strip_lower, lower_idem.
  - intros c r E. by rewrite E in Hl.
  - intros r c E. by rewrite E, reverse_snoc in Hr.
Qed.

Lemma normalize_lower (x : str) : normalize (lower x) = normalize x.
Proof. unfold normalize. by rewrite lower_idem. Qed.

(** X2: matching ignores the case of the query and the white space around
    it, and whether a line is reported does not depend on the case of the
    line. *)
Theorem matching_ignores_case doc (query mode q line : str) :
  find_matches doc (lower query) mode = find_matches doc query mode ∧
  find_matches doc (strip query) mode = find_matches doc query mode ∧
  line_matches mode q (lower line) = line_matches mode q line.
Proof.
  split; [|split].
  - unfold find_matches. by rewrite normalize_lower.
  - unfold find_matches. by rewrite normalize_strip.
  - unfold line_matches, contains_whole_team.
    by rewrite normalize_lower, lower_idem.
Qed.

(** ** Team Code mode against Swimmer Name mode *)

Lemma infix_of_lstrip (q x : str) :
  q ≠ [] → no_lead q → infix_of q x → infix_of q (lstrip x).
Proof.
  intros Hq Hl. induction x as [|c r IH]; [done|]. cbn [lstrip].
  destruct (isspace c) eqn:Hc; [|done].
  intros ([|c' a] & b & E); simpl in E.
  - destruct q as [|c' q']; [done|]. injection E as -> _.
    cbn in Hl. congruence.
  - injection E as -> ->. apply IH. by exists a, b.
Qed.

Lemma infix_of_reverse (q x : str) :
  infix_of q x → infix_of (reverse q) (reverse x).
Proof.
  intros (a & b & ->). exists (reverse b), (reverse a).
  by rewrite !reverse_app, <- (assoc_L (++)).
Qed.

Lemma infix_of_strip (q x : str) :
  q ≠ [] → no_lead q → no_lead (reverse q) →
  infix_of q x → infix_of q (strip x).
Proof.
  intros Hq Hl Hr H. unfold strip, rstrip.
  rewrite <- (reverse_involutive q). apply infix_of_reverse.
  apply infix_of_lstrip; [|done|].
  - intros E. apply Hq. by rewrite <- (reverse_involutive q), E.
  - by apply infix_of_reverse, infix_of_lstrip.
Qed.

Lemma free_standing_infix (q l : str) : free_standing q l → infix_of q l.
Proof.
  intros [->|[[k ->]|[[k ->]|[[k ->]|[[k ->]|[(a & b & ->)|(a & b & ->)]]]]]].
  - exists [], []. by rewrite (right_id_L [] (++)).
  - exists [], (SP :: k). by rewrite <- (assoc_L (++)).
  - exists [], (TAB :: k). by rewrite <- (assoc_L (++)).
  - by exists (k ++ [SP]), []; rewrite (right_id_L [] (++)), <- (assoc_L (++)).
  - by exists (k ++ [TAB]), []; rewrite (right_id_L [] (++)), <- (assoc_L (++)).
  - exists (a ++ [SP]), (SP :: b). by rewrite <- !(assoc_L (++)).
  - exists (a ++ [TAB]), (TAB :: b). by rewrite <- !(assoc_L (++)).
Qed.

(** X3: every line that Team Code mode reports is reported by Swimmer Name
    mode for the same query. *)
Theorem team_code_within_swimmer_name doc (query : str) (m : Match) :
  m ∈ find_matches doc query Team_Code →
  m ∈ find_matches doc query Swimmer_Name.
Proof.
  rewrite !elem_of_find_matches, line_matches_team, line_matches_name,
    contains_whole_team_spec, contains_infix.
  intros [Hl Hf]. split; [done|].
  destruct (normalize query) as [|c q] eqn:Eq.
  { by exists [], (normalize (m_text m)). }
  rewrite <- Eq in *. unfold normalize at 2.
  destruct (normalize_trimmed query) as [H1 H2].
  apply infix_of_strip; [by rewrite Eq | done | done |].
  by apply free_standing_infix.
Qed.

(** X4: a line without a space and without a tab is reported in Team Code
    mode exactly when, lower-cased, it is the normalized query: a code
    inside a longer token never matches. *)
Theorem team_code_single_token doc (query : str) p i (line : str) :
  SP ∉ line → TAB ∉ line →
  (mkMatch p i line ∈ find_matches doc query Team_Code ↔
   doc_line doc p i = Some line ∧ lower line = normalize query).
Proof.
  intros Hsp Htab.
  assert (∀ c, (c = SP ∨ c = TAB) → c ∉ lower line) as Hno.
  { intros c Hc Hin. unfold lower in Hin.
    apply list_elem_of_fmap in Hin as (c' & E & Hin).
    assert (c' = c) as ->; [|destruct Hc as [->| ->]; done].
    destruct Hc as [->| ->];
      destruct c' as [[] [] [] [] [] [] [] []]; done. }
  rewrite elem_of_find_matches, line_matches_team, contains_whole_team_spec.
  cbn [m_page m_line_num m_text].
  split; intros [Hl Hf]; (split; [done|]); [|by left].
  destruct Hf as [?|[[k E]|[[k E]|[[k E]|[[k E]|[(a & b & E)|(a & b & E)]]]]]];
    [done|exfalso..].
  - apply (Hno SP); [by left|]. rewrite E, ?elem_of_app, ?elem_of_cons. naive_solver.
  - apply (Hno TAB); [by right|]. rewrite E, ?elem_of_app, ?elem_of_cons. naive_solver.
  - apply (Hno SP); [by left|]. rewrite E, ?elem_of_app, ?elem_of_cons. naive_solver.
  - apply (Hno TAB); [by right|]. rewrite E, ?elem_of_app, ?elem_of_cons. naive_solver.
  - apply (Hno SP); [by left|]. rewrite E, ?elem_of_app, ?elem_of_cons. naive_solver.
  - apply (Hno TAB); [by right|]. rewrite E, ?elem_of_app, ?elem_of_cons. naive_solver.
Qed.

(** ** The list of matches *)

(** X5: no line is reported twice: the results have pairwise different
    (page, line) positions. *)
Theorem find_matches_positions_distinct doc (query mode : str) :
  NoDup ((fun m => (m_page m, m_line_num m)) <$> find_matches doc query mode).
Proof.
  assert (StronglySorted match_lt (find_matches doc query mode)) as H
    by apply scan_pages_sorted.
  induction H as [|m l Hs IH Hall]; [constructor|].
  rewrite fmap_cons. constructor; [|done].
  intros (m' & E & Hin)%list_elem_of_fmap.
  rewrite Forall_forall in Hall. specialize (Hall m' Hin).
  injection E as E1 E2. unfold match_lt in Hall. lia.
Qed.

Lemma splitlines_from_no_break (n : nat) (cur x : str) :
  length x ≤ n →
  Forall (fun c => islinebreak c = false) cur →
  ∀ l, l ∈ splitlines_from cur x → Forall (fun c => islinebreak c = false) l.
Proof.
  revert cur x; induction n as [|n IH]; intros cur x Hn Hcur l.
  - destruct x; [|cbn in Hn; lia]. cbn.
    destruct cur; [by intros ?%elem_of_nil|].
    intros ->%list_elem_of_singleton. by apply Forall_reverse.
  - destruct x as [|c r].
    { cbn. destruct cur; [by intros ?%elem_of_nil|].
      intros ->%list_elem_of_singleton. by apply Forall_reverse. }
    cbn [splitlines_from]. cbn in Hn.
    destruct (islinebreak c) eqn:Hc.
    + intros [->|Hl]%elem_of_cons; [by apply Forall_reverse|].
      destruct r as [|d r'].
      * by apply elem_of_nil in Hl.
      * cbn in Hn. destruct (_ && _).
        -- eapply (IH [] r'); [lia | constructor | done].
        -- eapply (IH [] (d :: r')); [cbn; lia | constructor | done].
    + apply IH; [lia|]. by constructor.
Qed.

(** X6: the text of a reported line holds no line boundary character, and
    a document whose pages have no plain text yields no match, whatever the
    query and the mode. *)
Theorem find_matches_lines doc (query mode : str) :
  (∀ m, m ∈ find_matches doc query mode →
        Forall (fun c => islinebreak c = false) (m_text m)) ∧
  (Forall (fun page => page_text page = []) doc →
   find_matches doc query mode = []).
Proof.
  split.
  - intros m [Hl _]%elem_of_find_matches. unfold doc_line in Hl.
    destruct (doc !! m_page m) as [page|]; cbn in Hl; [|done].
    apply list_elem_of_lookup_2 in Hl.
    by eapply (splitlines_from_no_break _ [] (page_text page)).
  - intros Hall. destruct (find_matches doc query mode) as [|m l] eqn:E;
      [done|].
    assert (m ∈ find_matches doc query mode) as Hm
      by (rewrite E; apply list_elem_of_here).
    apply elem_of_find_matches in Hm as [Hl _]. unfold doc_line in Hl.
    destruct (doc !! m_page m) as [page|] eqn:Hp; cbn in Hl; [|done].
    rewrite Forall_forall in Hall.
    rewrite (Hall page) in Hl by (by eapply list_elem_of_lookup_2).
    done.
Qed.

(** ** When the highlighter returns and how it fails *)

Lemma for_each_matches_in_range ms (doc doc' : Document) :
  for_each highlight_match ms doc = Ok doc' →
  Forall (fun m => m_page m < length doc) ms.
Proof.
  revert doc; induction ms as [|m ms IH]; intros doc; cbn [for_each];
    [by constructor|].
  intros (d1 & H1 & H)%bind_ok.
  apply highlight_match_ok in H1 as (page & rects & Hp & _ & ->).
  apply IH in H. rewrite length_alter in H.
  constructor; [by eapply lookup_lt_Some | done].
Qed.

Lemma drawn_for_exists (lines : list Line) :
  (∀ line, line ∈ lines → line_spans line ≠ []) →
  ∃ rects, drawn_for lines rects.
Proof.
  unfold drawn_for. induction lines as [|l ls IH]; intros H.
  - exists []. constructor.
  - destruct IH as [rs Hrs].
    { intros ??. by apply H, list_elem_of_further. }
    destruct (line_rect_ok l) as [r Hr]; [apply H, list_elem_of_here|].
    exists (r :: rs). by constructor.
Qed.

Lemma lookup_alter_add_annots rects p q (doc : Document) page :
  alter (add_annots rects) p doc !! q = Some page →
  ∃ page0 rs, doc !! q = Some page0 ∧ page = add_annots rs page0.
Proof.
  destruct (decide (p = q)) as [->|Hne].
  - rewrite list_lookup_alter_eq. destruct (doc !! q) as [page0|]; [|done].
    intros [= <-]. by exists page0, rects.
  - rewrite list_lookup_alter_ne by done. intros H.
    exists page, []. by rewrite add_annots_nil.
Qed.

Lemma for_each_matches_returns ms (doc : Document) :
  Forall (fun m => m_page m < length doc) ms →
  (∀ m page line, m ∈ ms → doc !! m_page m = Some page →
                  line ∈ hits (m_text m) page → line_spans line ≠ []) →
  ∃ doc', for_each highlight_match ms doc = Ok doc'.
Proof.
  revert doc; induction ms as [|m ms IH]; intros doc Hms Hsp; cbn [for_each].
  - by exists doc.
  - apply Forall_cons in Hms as [Hm Hms].
    apply lookup_lt_is_Some in Hm as [page Hp].
    destruct (drawn_for_exists (hits (m_text m) page)) as [rects HF].
    { intros line Hl.
      apply (Hsp m page line); [apply list_elem_of_here | done | done]. }
    rewrite (highlight_match_run m doc page rects Hp HF). cbn.
    apply IH; [by rewrite length_alter|].
    intros m' pg line Hm' Hpg Hl.
    apply lookup_alter_add_annots in Hpg as (page0 & rs & Hp0 & ->).
    apply (Hsp m' page0 line); [by apply list_elem_of_further | done | done].
Qed.

Lemma for_each_lines_fail p t lines (doc : Document) e :
  for_each (highlight_line p t) lines doc = Err e →
  ∃ line, line ∈ hits_in t lines ∧ line_spans line = [].
Proof.
  unfold hits_in.
  revert doc; induction lines as [|l lines IH]; intros doc; cbn [for_each];
    [done|].
  destruct (decide (normalize (line_text l) = normalize t)) as [Hhit|Hhit].
  - rewrite highlight_line_hit, filter_cons_True by done.
    destruct (line_rect l) as [r|e'] eqn:Er; cbn.
    + intros (line & Hin & Hs)%IH. exists line.
      split; [by apply list_elem_of_further | done].
    + intros _. apply line_rect_err in Er as [_ Hs].
      exists l. split; [apply list_elem_of_here | done].
  - rewrite highlight_line_miss, filter_cons_False by done. cbn. apply IH.
Qed.

Lemma for_each_blocks_fail p t blocks (doc : Document) e :
  for_each (highlight_block p t) blocks doc = Err e →
  ∃ line,
    line ∈ hits_in t (flat_map block_lines
                        (filter (fun b => block_type b = 0%Z) blocks)) ∧
    line_spans line = [].
Proof.
  revert doc; induction blocks as [|b blocks IH]; intros doc; cbn [for_each];
    [done|].
  destruct (decide (block_type b = 0%Z)) as [Hty|Hty].
  - rewrite highlight_block_text, filter_cons_True by done.
    cbn [flat_map]. unfold hits_in. rewrite filter_app.
    destruct (for_each (highlight_line p t) (block_lines b) doc)
      as [d1|e'] eqn:E1; cbn.
    + intros (line & Hin & Hs)%IH. exists line.
      split; [apply elem_of_app; by right | done].
    + intros _. apply for_each_lines_fail in E1 as (line & Hin & Hs).
      exists line. split; [apply elem_of_app; by left | done].
  - rewrite highlight_block_other, filter_cons_False by done. cbn. apply IH.
Qed.

Lemma for_each_matches_fail ms (doc : Document) e :
  for_each highlight_match ms doc = Err e →
  (e = IndexError ∧ ∃ m, m ∈ ms ∧ length doc ≤ m_page m) ∨
  (e = ValueError ∧
   ∃ m page line, m ∈ ms ∧ doc !! m_page m = Some page ∧
                  line ∈ hits (m_text m) page ∧ line_spans line = []).
Proof.
  revert doc; induction ms as [|m ms IH]; intros doc; cbn [for_each]; [done|].
  destruct (highlight_match m doc) as [d1|e'] eqn:E; cbn.
  - apply highlight_match_ok in E as (pm & rs & Hpm & _ & ->).
    intros [[He (m' & Hm' & Hle)]|[He (m' & pg & line & Hm' & Hpg & Hl & Hs)]]%IH.
    + left. split; [done|]. exists m'.
      split; [by apply list_elem_of_further|]. by rewrite length_alter in Hle.
    + right. split; [done|].
      apply lookup_alter_add_annots in Hpg as (page0 & rs0 & Hp0 & ->).
      exists m', page0, line. by split; [apply list_elem_of_further|].
  - intros [= ->]. pose proof E as E'.
    apply highlight_match_err in E' as [[He Hn]|[He [page Hp]]].
    + left. split; [done|]. exists m.
      split; [apply list_elem_of_here | by apply lookup_ge_None].
    + right. split; [done|]. unfold highlight_match in E. rewrite Hp in E.
      apply for_each_blocks_fail in E as (line & Hin & Hs).
      rewrite hits_in_strip in Hin.
      exists m, page, line. by split; [apply list_elem_of_here|].
Qed.

Lemma drawn_for_functional (lines : list Line) (r1 r2 : list Rect) :
  drawn_for lines r1 → drawn_for lines r2 → r1 = r2.
Proof.
  unfold drawn_for. intros H1. revert r2.
  induction H1 as [|l r ls rs Hr _ IH]; intros r2 H2.
  - by apply Forall2_nil_inv_l in H2.
  - apply Forall2_cons_inv_l in H2 as (r' & rs' & Hr' & H2 & ->).
    rewrite Hr in Hr'. injection Hr' as <-. f_equal. by apply IH.
Qed.

Lemma annotated_functional ms (doc d1 d2 : Document) :
  annotated ms doc d1 → annotated ms doc d2 → d1 = d2.
Proof.
  intros [Hl1 H1] [Hl2 H2]. apply list_eq. intros p.
  destruct (doc !! p) as [page|] eqn:Hp.
  - destruct (H1 _ _ Hp) as (r1 & -> & HF1).
    destruct (H2 _ _ Hp) as (r2 & -> & HF2).
    by rewrite (drawn_for_functional _ _ _ HF1 HF2).
  - apply lookup_ge_None in Hp.
    rewrite (proj2 (lookup_ge_None d1 p)) by lia.
    by rewrite (proj2 (lookup_ge_None d2 p)) by lia.
Qed.

Lemma annotated_spans ms (doc doc' : Document) m page line :
  annotated ms doc doc' → m ∈ ms → doc !! m_page m = Some page →
  line ∈ hits (m_text m) page → line_spans line ≠ [].
Proof.
  intros [_ H] Hm Hp Hl Hs. destruct (H _ _ Hp) as (rects & _ & HF).
  assert (line ∈ page_hits ms (m_page m) page) as Hin.
  { apply list_elem_of_In, in_flat_map. exists m. split.
    - apply list_elem_of_In, list_elem_of_filter. by split.
    - by apply list_elem_of_In. }
  apply list_elem_of_lookup in Hin as [i Hi].
  destruct (Forall2_lookup_l _ _ _ _ _ HF Hi) as (r & _ & Hr).
  unfold line_rect in Hr. by rewrite Hs in Hr.
Qed.

Section HighlighterFurther.

Variable open_pdf : list Byte.byte → option Document.
Variable save : Document → option (list Byte.byte).

(** X7: [highlight_lines] returns the bytes [out] exactly when the input
    opens as a document, every match names a page of it, and [out] is what
    saving gives for that document with, on each page, one union rectangle
    added per layout line hit by the matches naming the page. *)
Theorem highlight_lines_returns_iff input_bytes matches out :
  highlight_lines open_pdf save input_bytes matches = Ok out ↔
  ∃ doc doc',
    open_pdf input_bytes = Some doc ∧
    Forall (fun m => m_page m < length doc) matches ∧
    annotated matches doc doc' ∧
    save doc' = Some out.
Proof.
  unfold highlight_lines. split.
  - intros H. destruct (open_pdf input_bytes) as [doc|]; [|done].
    apply bind_ok in H as (doc' & H & Hs). exists doc, doc'.
    split; [done|]. split; [by eapply for_each_matches_in_range|].
    split; [by apply for_each_matches_ok|].
    destruct (save doc'); [by injection Hs as -> | done].
  - intros (doc & doc' & -> & Hms & Han & Hs).
    destruct (for_each_matches_returns matches doc Hms) as [d E].
    { intros m page line. by apply (annotated_spans _ _ _ _ _ _ Han). }
    rewrite E. cbn.
    rewrite (annotated_functional _ _ _ _ (for_each_matches_ok _ _ _ E) Han).
    by rewrite Hs.
Qed.

(** X8: a failure of [highlight_lines] is one of four: the bytes do not open
    (document error); a match names a page beyond the document (index
    error); a layout line hit by a match has no span, so that [min] gets an
    empty sequence (value error); or every match is drawn and the save of
    the annotated document fails (value error). *)
Theorem highlight_lines_failures input_bytes matches e :
  highlight_lines open_pdf save input_bytes matches = Err e →
  (e = DocumentError ∧ open_pdf input_bytes = None) ∨
  (e = IndexError ∧
   ∃ doc m, open_pdf input_bytes = Some doc ∧ m ∈ matches ∧
            length doc ≤ m_page m) ∨
  (e = ValueError ∧
   ∃ doc m page line,
     open_pdf input_bytes = Some doc ∧ m ∈ matches ∧
     doc !! m_page m = Some page ∧
     line ∈ hits (m_text m) page ∧ line_spans line = []) ∨
  (e = ValueError ∧
   ∃ doc doc',
     open_pdf input_bytes = Some doc ∧
     annotated matches doc doc' ∧ save doc' = None).
Proof.
  unfold highlight_lines. destruct (open_pdf input_bytes) as [doc|].
  - destruct (for_each highlight_match matches doc) as [d|e'] eqn:E; cbn.
    + destruct (save d) eqn:Es; [done|]. intros [= <-]. do 3 right.
      split; [done|]. exists doc, d. split; [done|].
      split; [by apply for_each_matches_ok | done].
    + intros [= ->]. right.
      apply for_each_matches_fail in E
        as [[-> (m & Hm & Hle)]|[-> (m & pg & l & Hm & Hp & Hl & Hs)]].
      * left. split; [done|]. by exists doc, m.
      * right. left. split; [done|]. by exists doc, m, pg, l.
  - intros [= <-]. by left.
Qed.

End HighlighterFurther.

(** ** What a run leaves untouched *)

Lemma page_hits_none ms p page :
  Forall (fun m => m_page m ≠ p) ms → page_hits ms p page = [].
Proof.
  unfold page_hits. induction 1 as [|m ms Hm _ IH]; [done|].
  by rewrite filter_cons_False.
Qed.

Lemma for_each_ext {A S : Type} (f g : A → S → result S) (l : list A)
    (st : S) :
  (∀ a st', f a st' = g a st') → for_each f l st = for_each g l st.
Proof.
  intros H. revert st; induction l as [|a l IH]; intros st; cbn [for_each];
    [done|].
  rewrite H. destruct (g a st) as [st'|e]; cbn; [apply IH | done].
Qed.

Section HighlighterInvariants.

Variable open_pdf : list Byte.byte → option Document.
Variable save : Document → option (list Byte.byte).

(** X9: a run that returns saves a document with the same number of pages;
    every page keeps its plain text, its layout and, at the front, the
    annotations it had; annotations are only added, as many as the layout
    lines hit by the matches that name the page, match after match; a page
    that no match names is saved as it was. *)
Theorem highlight_lines_only_adds input_bytes matches out doc :
  open_pdf input_bytes = Some doc →
  highlight_lines open_pdf save input_bytes matches = Ok out →
  ∃ doc',
    save doc' = Some out ∧
    length doc' = length doc ∧
    ∀ p page, doc !! p = Some page →
      ∃ page',
        doc' !! p = Some page' ∧
        page_text page' = page_text page ∧
        page_blocks page' = page_blocks page ∧
        page_annots page `prefix_of` page_annots page' ∧
        length (page_annots page')
        = length (page_annots page) + length (page_hits matches p page) ∧
        (Forall (fun m => m_page m ≠ p) matches → page' = page).
Proof.
  intros Hopen Hrun.
  destruct (highlight_ok _ _ _ _ _ _ Hopen Hrun) as (doc' & Hfor & Hsv).
  apply for_each_matches_ok in Hfor as [Hlen Hpages].
  exists doc'. split; [done|]. split; [done|].
  intros p page Hp. destruct (Hpages _ _ Hp) as (rects & Hd & HF).
  exists (add_annots rects page).
  split; [done|]. split; [done|]. split; [done|]. split; [|split].
  - by exists rects.
  - cbn. rewrite length_app. f_equal. symmetry. by eapply Forall2_length.
  - intros Hno. rewrite (page_hits_none _ _ _ Hno) in HF.
    apply Forall2_nil_inv_l in HF as ->. apply add_annots_nil.
Qed.

End HighlighterInvariants.

(** X10: the highlighter reads the page and the text of a match and nothing
    else: two matches on the same page whose texts normalize alike (whatever
    their line numbers, case and surrounding white space) have the same
    effect. *)
Theorem highlight_match_by_text (m m' : Match) (doc : Document) :
  m_page m = m_page m' →
  normalize (m_text m) = normalize (m_text m') →
  highlight_match m doc = highlight_match m' doc.
Proof.
  intros Hp Ht. unfold highlight_match. rewrite <- Hp.
  destruct (doc !! m_page m) as [page|]; [|done].
  apply for_each_ext. intros b d. unfold highlight_block.
  case_bool_decide; [done|].
  apply for_each_ext. intros l d'. unfold highlight_line.
  by rewrite !normalize_strip, Ht.
Qed.

(** X11: the rectangle computed for a line is well formed when the boxes of
    its spans are: least corner before greatest corner on both axes. *)
Theorem line_rect_well_formed (line : Line) (r : Rect) :
  line_rect line = Ok r →
  (∀ sp, sp ∈ line_spans line →
         (x0 (span_bbox sp) <= x1 (span_bbox sp))%Q ∧
         (y0 (span_bbox sp) <= y1 (span_bbox sp))%Q) →
  (x0 r <= x1 r)%Q ∧ (y0 r <= y1 r)%Q.
Proof.
  intros Hr Hwf. pose proof (line_rect_spec _ _ Hr) as (Hx0 & Hy0 & Hx1 & Hy1).
  destruct (line_spans line) as [|sp rest] eqn:E.
  { unfold line_rect in Hr. by rewrite E in Hr. }
  destruct (Hwf sp) as [Hx Hy]; [apply list_elem_of_here|].
  split.
  - eapply Qle_trans; [apply Hx0, list_elem_of_here|].
    eapply Qle_trans; [exact Hx|]. apply Hx1, list_elem_of_here.
  - eapply Qle_trans; [apply Hy0, list_elem_of_here|].
    eapply Qle_trans; [exact Hy|]. apply Hy1, list_elem_of_here.
Qed.

(** ** Matcher and highlighter together, and the script *)

Section Pipeline.

Variable open_pdf : list Byte.byte → option Document.
Variable save : Document → option (list Byte.byte).

(** X12: on a document whose layout lines all carry a span, highlighting
    the matches found in that same document draws every match, whatever the
    query and the mode: the loops raise nothing, and the result is the
    outcome of saving the annotated document. *)
Theorem highlight_found_matches_reaches_save input_bytes doc
    (query mode : str) :
  open_pdf input_bytes = Some doc →
  (∀ p page line, doc !! p = Some page → line ∈ text_lines page →
                  line_spans line ≠ []) →
  ∃ doc',
    annotated (find_matches doc query mode) doc doc' ∧
    highlight_lines open_pdf save input_bytes (find_matches doc query mode)
    = saved (save doc').
Proof.
  intros Hopen Hsp.
  destruct (highlight_lines_total open_pdf save input_bytes
              (find_matches doc query mode) doc) as (doc' & E & ->);
    [done| |done|].
  - apply Forall_forall. intros m [Hl _]%elem_of_find_matches.
    unfold doc_line in Hl.
    destruct (doc !! m_page m) as [page|] eqn:Hp; cbn in Hl; [|done].
    by eapply lookup_lt_Some.
  - exists doc'. split; [by apply for_each_matches_ok | done].
Qed.

(** X14: when the script reports matches, the count is the number of table
    rows and is not zero; every row gives a page between 1 and the page
    count and a line between 1 and the number of plain-text lines of that
    page, with the text of that line; and the highlighting that follows
    fails neither in opening the file nor in a page lookup. *)
Theorem script_table uploaded_file (query_input search_type : str)
    count table download :
  script open_pdf save uploaded_file query_input search_type
  = Ok (Found count table download) →
  count = length table ∧ count ≠ 0 ∧
  download ≠ Err DocumentError ∧ download ≠ Err IndexError ∧
  ∃ raw doc,
    uploaded_file = Some raw ∧ open_pdf raw = Some doc ∧
    ∀ row, row ∈ table →
      1 ≤ row_page row ≤ length doc ∧
      1 ≤ row_line row ∧
      doc_line doc (row_page row - 1) (row_line row - 1)
      = Some (row_text row).
Proof.
  unfold script. destruct uploaded_file as [raw|]; [|done].
  case_bool_decide as Hq; [|done].
  destruct (open_pdf raw) as [doc|] eqn:Ho; [|done].
  destruct (find_matches doc query_input search_type) as [|m0 ms] eqn:E;
    [done|].
  rewrite <- E. intros [= <- <- <-].
  assert (∀ m, m ∈ find_matches doc query_input search_type →
               m_page m < length doc ∧
               doc_line doc (m_page m) (m_line_num m) = Some (m_text m))
    as Hb.
  { intros m [Hl _]%elem_of_find_matches. split; [|done].
    unfold doc_line in Hl.
    destruct (doc !! m_page m) as [page|] eqn:Hp; cbn in Hl; [|done].
    by eapply lookup_lt_Some. }
  split; [by rewrite length_fmap|]. split; [by rewrite E|].
  split; [|split].
  - unfold highlight_lines. rewrite Ho.
    destruct (for_each highlight_match _ doc) as [d|e] eqn:Ef; cbn;
      [by destruct (save d)|].
    intros [= ->]. by apply for_each_matches_err in Ef as [[? _]|?].
  - unfold highlight_lines. rewrite Ho.
    destruct (for_each highlight_match _ doc) as [d|e] eqn:Ef; cbn;
      [by destruct (save d)|].
    intros [= ->].
    apply for_each_matches_err in Ef as [[_ (m & Hm & Hle)]|?]; [|done].
    apply Hb in Hm as [Hlt _]. lia.
  - exists raw, doc. split; [done|]. split; [done|].
    intros row (m & -> & Hm)%list_elem_of_fmap.
    apply Hb in Hm as [Hlt Hl]. cbn.
    replace (m_page m + 1 - 1) with (m_page m) by lia.
    replace (m_line_num m + 1 - 1) with (m_line_num m) by lia.
    split; [lia|]. split; [lia | done].
Qed.

End Pipeline.

(** ** The further properties on the sample sheet *)

(** X3 on the sample: the first name line, found by team code. *)
Lemma team_code_within_swimmer_name_witness :
  mkMatch 0 1 sample_name_line
  ∈ find_matches sample_doc (lit "MAC-MA") Swimmer_Name.
Proof.
  apply (team_code_within_swimmer_name sample_doc (lit "MAC-MA")).
  apply list_elem_of_here.
Defined.

(** X4 on a page that holds the one token [EMAC-MA]. *)
Lemma team_code_single_token_witness :
  mkMatch 0 0 (lit "EMAC-MA")
  ∈ find_matches [text_page (lit "EMAC-MA")] (lit "mac-ma") Team_Code ↔
  doc_line [text_page (lit "EMAC-MA")] 0 0 = Some (lit "EMAC-MA") ∧
  lower (lit "EMAC-MA") = normalize (lit "mac-ma").
Proof.
  apply (team_code_single_token [text_page (lit "EMAC-MA")] (lit "mac-ma")
           0 0 (lit "EMAC-MA")).
  - intros H%list_elem_of_In. cbn in H. intuition discriminate.
  - intros H%list_elem_of_In. cbn in H. intuition discriminate.
Defined.

(** X8 on the sample: a match on page 5 of the one-page sheet. *)
Lemma highlight_lines_failures_witness :
  (IndexError = DocumentError ∧ sample_open sample_bytes = None) ∨
  (IndexError = IndexError ∧
   ∃ doc m, sample_open sample_bytes = Some doc ∧
            m ∈ [mkMatch 5 0 sample_name_line] ∧ length doc ≤ m_page m) ∨
  (IndexError = ValueError ∧
   ∃ doc m page line,
     sample_open sample_bytes = Some doc ∧
     m ∈ [mkMatch 5 0 sample_name_line] ∧
     doc !! m_page m = Some page ∧
     line ∈ hits (m_text m) page ∧ line_spans line = []) ∨
  (IndexError = ValueError ∧
   ∃ doc doc',
     sample_open sample_bytes = Some doc ∧
     annotated [mkMatch 5 0 sample_name_line] doc doc' ∧
     sample_save doc' = None).
Proof.
  apply (highlight_lines_failures sample_open sample_save sample_bytes
           [mkMatch 5 0 sample_name_line] IndexError).
  reflexivity.
Defined.

(** X9 on the sample: the run on the matches of team MAC-MA. *)
Lemma highlight_lines_only_adds_witness :
  ∃ doc',
    sample_save doc' = Some sample_out ∧
    length doc' = length sample_doc ∧
    ∀ p page, sample_doc !! p = Some page →
      ∃ page',
        doc' !! p = Some page' ∧
        page_text page' = page_text page ∧
        page_blocks page' = page_blocks page ∧
        page_annots page `prefix_of` page_annots page' ∧
        length (page_annots page')
        = length (page_annots page) + length (page_hits sample_matches p page) ∧
        (Forall (fun m => m_page m ≠ p) sample_matches → page' = page).
Proof.
  apply (highlight_lines_only_adds sample_open sample_save sample_bytes
           sample_matches sample_out sample_doc).
  - reflexivity.
  - reflexivity.
Defined.

(** X10 on the sample: another line number, another case and more white
    space around the text change nothing. *)
Lemma highlight_match_by_text_witness :
  highlight_match (mkMatch 0 1 sample_name_line) sample_doc
  = highlight_match (mkMatch 0 7 (lit "  mac-ma  JOHN smith ")) sample_doc.
Proof.
  apply (highlight_match_by_text (mkMatch 0 1 sample_name_line)
           (mkMatch 0 7 (lit "  mac-ma  JOHN smith ")) sample_doc).
  - reflexivity.
  - reflexivity.
Defined.

(** X11 on the first name line of the sample. *)
Lemma line_rect_well_formed_witness :
  (x0 (mkRect 72 (197#2) 210 113) <= x1 (mkRect 72 (197#2) 210 113))%Q ∧
  (y0 (mkRect 72 (197#2) 210 113) <= y1 (mkRect 72 (197#2) 210 113))%Q.
Proof.
  apply (line_rect_well_formed sample_first (mkRect 72 (197#2) 210 113)).
  - reflexivity.
  - intros sp H%list_elem_of_In. cbn in H.
    destruct H as [<-|[<-|[]]]; split; discriminate.
Defined.

Lemma sample_lines_have_spans p page line :
  sample_doc !! p = Some page → line ∈ text_lines page →
  line_spans line ≠ [].
Proof.
  destruct p as [|p]; [|done]. intros [= <-] H%list_elem_of_In. cbn in H.
  destruct H as [<-|[<-|[<-|[<-|[<-|[]]]]]]; discriminate.
Qed.

(** X12 on the sample, for a swimmer's name. *)
Lemma highlight_found_matches_reaches_save_witness :
  ∃ doc',
    annotated (find_matches sample_doc (lit "john") Swimmer_Name)
      sample_doc doc' ∧
    highlight_lines sample_open sample_save sample_bytes
      (find_matches sample_doc (lit "john") Swimmer_Name)
    = saved (sample_save doc').
Proof.
  apply (highlight_found_matches_reaches_save sample_open sample_save
           sample_bytes sample_doc (lit "john") Swimmer_Name).
  - reflexivity.
  - apply sample_lines_have_spans.
Defined.

(** X14 on the sample: team MAC-MA gives two rows, for lines 2 and 4 of
    page 1. *)
Lemma script_table_witness :
  2 = length (table_row <$> sample_matches) ∧ 2 ≠ 0 ∧
  Ok sample_out ≠ Err DocumentError ∧ Ok sample_out ≠ Err IndexError ∧
  ∃ raw doc,
    Some sample_bytes = Some raw ∧ sample_open raw = Some doc ∧
    ∀ row, row ∈ table_row <$> sample_matches →
      1 ≤ row_page row ≤ length doc ∧
      1 ≤ row_line row ∧
      doc_line doc (row_page row - 1) (row_line row - 1)
      = Some (row_text row).
Proof.
  apply (script_table sample_open sample_save (Some sample_bytes)
           (lit "mac-ma") Team_Code 2 (table_row <$> sample_matches)
           (Ok sample_out)).
  reflexivity.
Defined.
